(** * Ariwa: a shallow embedding of the websocket client and its API wrappers

    The development follows the TypeScript sources:
    - [AriwaClient]: the event machine around the websocket, and the
      [TopGGAPI] wrapper declared next to it,
    - [AriwaAPI]: the wrapper of the websocket service's REST API,
    - [utils/fetcher]: [safeFetchJSON],
    - [utils/persist]: [loadTimestamp] and [saveTimestamp].

    Conventions of the embedding.
    - JavaScript values are the inductive [Js.value]; the numbers in them
      are integers ([Z]), which is what the wire protocol carries for [op]
      and [ts].
    - A string is the sequence of the bytes of its UTF-8 encoding.
    - The reconnection delays are IEEE 754 doubles ([Double.double]), with
      the rounding of every operation.
    - Everything the environment decides is an explicit input: the outcome of
      [JSON.parse], of [fetch], of reading the marker file, the value of
      [Math.pow] and the sample of [Math.random()], and the readings of
      [Date.now()].
    - An [async] method is one atomic step; interleavings of two calls in
      flight are not modelled.
    - [console.log] and [console.error] calls are left out. *)

From Stdlib Require Import ZArith QArith Lia Ascii DecimalString SpecFloat.
From stdpp Require Import base strings gmap sorting.

Set Warnings "-register-all".

(** ** JavaScript values *)

Module Js.

Inductive value : Type :=
| VUndefined
| VNull
| VBool (b : bool)
| VNum (n : Z)
| VStr (s : string)
| VArr (items : list value)
| VObj (props : list (string * value)).

(** [if (v)] *)
Definition truthy (v : value) : bool :=
  match v with
  | VUndefined | VNull => false
  | VBool b => b
  | VNum n => negb (n =? 0)%Z
  | VStr s => negb (String.eqb s "")
  | VArr _ | VObj _ => true
  end.

(** the left operand of [??] falls through exactly on these two *)
Definition nullish (v : value) : bool :=
  match v with
  | VUndefined | VNull => true
  | _ => false
  end.

(** [v === n] for a number literal [n] *)
Definition is_num (v : value) (n : Z) : bool :=
  match v with
  | VNum m => (m =? n)%Z
  | _ => false
  end.

Fixpoint lookup_prop (k : string) (props : list (string * value)) : value :=
  match props with
  | [] => VUndefined
  | (k', v) :: rest => if String.eqb k k' then v else lookup_prop k rest
  end.

(** [v.k] on a value that is neither [null] nor [undefined].  The client only
    reads the keys [op], [d], [ts], [voted] and [lastMessageTimestamp]; none
    of them is defined on the prototype of a string, number, boolean or
    array. *)
Definition get (v : value) (k : string) : value :=
  match v with
  | VObj props => lookup_prop k props
  | _ => VUndefined
  end.

Fixpoint set_prop (k : string) (v : value) (props : list (string * value))
  : list (string * value) :=
  match props with
  | [] => [(k, v)]
  | (k', v') :: rest =>
      if String.eqb k k' then (k, v) :: rest else (k', v') :: set_prop k v rest
  end.

Definition nat_to_string (n : nat) : string :=
  NilEmpty.string_of_uint (Nat.to_uint n).

Definition Z_to_string (n : Z) : string :=
  NilZero.string_of_int (Z.to_int n).

Fixpoint index_from {A : Type} (i : nat) (l : list A) : list (string * A) :=
  match l with
  | [] => []
  | x :: rest => (nat_to_string i, x) :: index_from (S i) rest
  end.

Fixpoint chars (s : string) : list value :=
  match s with
  | EmptyString => []
  | String c rest => VStr (String c EmptyString) :: chars rest
  end.

(** the own enumerable properties copied by an object spread [{ ...v }] *)
Definition own_props (v : value) : list (string * value) :=
  match v with
  | VObj props => props
  | VArr items => index_from 0 items
  | VStr s => index_from 0 (chars s)
  | _ => []
  end.

(** [{ ...d, k: v }] *)
Definition spread_with (d : value) (k : string) (v : value) : value :=
  VObj (set_prop k v (own_props d)).

(** [String(v)], which is also [v.toString()] where the latter is defined *)
Fixpoint to_string (v : value) : string :=
  match v with
  | VUndefined => "undefined"
  | VNull => "null"
  | VBool true => "true"
  | VBool false => "false"
  | VNum n => Z_to_string n
  | VStr s => s
  | VArr items =>
      (fix join (l : list value) : string :=
         match l with
         | [] => ""
         | x :: rest =>
             (if nullish x then "" else to_string x) +:+
             match rest with
             | [] => ""
             | _ :: _ => "," +:+ join rest
             end
         end) items
  | VObj _ => "[object Object]"
  end.

(** [hay.includes(needle)] *)
Fixpoint includes (needle hay : string) : bool :=
  String.prefix needle hay ||
  match hay with
  | EmptyString => false
  | String _ rest => includes needle rest
  end.

(** [s.endsWith(suffix)] *)
Fixpoint ends_with (suffix s : string) : bool :=
  String.eqb suffix s ||
  match s with
  | EmptyString => false
  | String _ rest => ends_with suffix rest
  end.

Definition is_slash (c : Ascii.ascii) : bool := Ascii.eqb c "/"%char.

(** the longest prefix without a slash, and what follows it *)
Fixpoint span_no_slash (s : string) : string * string :=
  match s with
  | EmptyString => (EmptyString, EmptyString)
  | String c rest =>
      if is_slash c then (EmptyString, s)
      else let (run, tl) := span_no_slash rest in (String c run, tl)
  end.

Fixpoint drop (n : nat) (s : string) : string :=
  match n, s with
  | O, _ => s
  | S n', String _ rest => drop n' rest
  | S _, EmptyString => EmptyString
  end.

(** One attempt of the pattern [pre([^/]+)post] at the start of [s].  The
    group is greedy; because [post] is empty or begins with a slash, a shorter
    run can never be followed by [post], so backtracking adds nothing. *)
Definition match_here (pre post s : string) : option string :=
  if String.prefix pre s then
    let (run, tl) := span_no_slash (drop (String.length pre) s) in
    if negb (String.eqb run "") && String.prefix post tl then Some run else None
  else None.

(** [s.match(/pre([^/]+)post/)?.[1]]: the first group of the leftmost match *)
Fixpoint match_group (pre post s : string) : option string :=
  match match_here pre post s with
  | Some run => Some run
  | None =>
      match s with
      | EmptyString => None
      | String _ rest => match_group pre post rest
      end
  end.

(** an identifier that can stand as one segment of a path: not empty and
    without a slash *)
Fixpoint no_slash (s : string) : bool :=
  match s with
  | EmptyString => true
  | String c rest => negb (is_slash c) && no_slash rest
  end.

Definition segment (s : string) : bool :=
  negb (String.eqb s "") && no_slash s.

End Js.

(** ** JavaScript numbers *)

(** A [number] is an IEEE 754 binary64 value: the [spec_float] of the
    standard library at precision 53 and maximal exponent 1024, with its
    operations rounding to nearest, ties to even. *)
Module Double.

Local Open Scope Z_scope.

Definition prec : Z := 53.
Definition emax : Z := 1024.

Definition double : Type := spec_float.

Definition NaN : double := S754_nan.
Definition zero : double := S754_zero false.
Definition infinity : double := S754_infinity false.

(** the double nearest to [m * 2^e] *)
Definition of_dyadic (m e : Z) : double := binary_normalize prec emax m e false.

(** the double nearest to the integer [n] *)
Definition of_Z (n : Z) : double := of_dyadic n 0.

(** [x * y], [x + y] and [x / y] *)
Definition mul : double -> double -> double := SFmul prec emax.
Definition add : double -> double -> double := SFadd prec emax.

(** [x <= y] and [x < y]; both are false when an operand is [NaN] *)
Definition leb : double -> double -> bool := SFleb.

(** [Math.min(x, y)]: [NaN] when an operand is [NaN], and [-0] below [+0] *)
Definition min (x y : double) : double :=
  match SFcompare x y with
  | None => NaN
  | Some Lt => x
  | Some Gt => y
  | Some Eq => match y with S754_zero true => y | _ => x end
  end.


(** [0 <= x]: a zero of either sign, a positive number or [+Infinity] *)
Definition nonneg (x : double) : bool := leb zero x.

End Double.

(** *** Vocabulary for the rounding of doubles *)

Module Rounding.

Local Open Scope Z_scope.

(** [m / 2^k] rounded to the nearest integer, ties to even *)
Definition rne_div (m k : Z) : Z :=
  let q := m / 2 ^ k in
  match 2 * (m mod 2 ^ k) ?= 2 ^ k with
  | Lt => q
  | Eq => if Z.even q then q else q + 1
  | Gt => q + 1
  end.


(** The value [N * 2^g], [0 <= N], is measured in units of [2^g].  Its double
    has the exponent [expo g N]; [nearest g N] is the nearest value with 53
    bits at that exponent, [cap g] is [2^1024], from where on the double is
    [Infinity], and [rounded g N] is the value that the double stands for. *)
Definition expo (g N : Z) : Z := Z.max (Z.log2 N + 1 + g - 53) (-1074).

Definition nearest (g N : Z) : Z :=
  rne_div N (expo g N - g) * 2 ^ (expo g N - g).








End Rounding.

(** ** [Result] of [@sapphire/result] *)

Inductive Result : Type :=
| Ok (data : Js.value)
| Err (message : string).

Definition isOk (r : Result) : bool :=
  match r with
  | Ok _ => true
  | Err _ => false
  end.

(** what [JSON.parse] made of a text: a [SyntaxError] or a value *)
Inductive parsed : Type :=
| Malformed (err : string)
| Decoded (data : Js.value).

(** how an [async] body ends: it returns, or it throws and the promise
    rejects *)
Inductive completion (A : Type) : Type :=
| Normal (a : A)
| Thrown (e : string).
Arguments Normal {A} a.
Arguments Thrown {A} e.

(** ** [src/utils/persist.ts] *)

Module Persist.

(** what [fs.readFile] raced against the one second timer gave *)
Inductive file_read : Type :=
| ReadFails
| ReadText (content : parsed).

(** [loadTimestamp]: every failure, the [TypeError] of [null.lastMessageTimestamp]
    included, ends in the [catch] *)
Definition loadTimestamp (f : file_read) : Js.value :=
  match f with
  | ReadFails => Js.VUndefined
  | ReadText (Malformed _) => Js.VUndefined
  | ReadText (Decoded data) =>
      if Js.nullish data then Js.VUndefined
      else Js.get data "lastMessageTimestamp"
  end.

(** [saveTimestamp] writes the JSON text of this object; whether the write
    succeeds is never reported back *)
Definition saveTimestamp (timestamp : Js.value) : Js.value :=
  Js.VObj [("lastMessageTimestamp", timestamp)].

End Persist.

(** ** [src/utils/fetcher.ts] *)

Module Fetcher.

Inductive body_read (A : Type) : Type :=
| Read (a : A)
| ReadError (message : string).
Arguments Read {A} a.
Arguments ReadError {A} message.

(** The observable part of a [Response].  [JSON.stringify] and [JSON.parse]
    are not re-implemented: the record carries what they give on this body. *)
Record response : Type := mkResponse {
  status : nat;
  statusText : string;
  contentType : option string;               (* headers.get('content-type') *)
  json_stringified : body_read string;       (* JSON.stringify(await response.json()) *)
  text : body_read string;                   (* await response.text() *)
  text_parsed : body_read Js.value           (* JSON.parse(text) *)
}.

(** what [fetch] settles with *)
Inductive fetched : Type :=
| Rejected (message : string)
| Responded (r : response).

(** [response.ok], by the Fetch standard *)
Definition ok (r : response) : bool :=
  (200 <=? status r)%nat && (status r <=? 299)%nat.

(** [contentType?.includes('application/json')] *)
Definition is_json (ct : option string) : bool :=
  match ct with
  | Some c => Js.includes "application/json" c
  | None => false
  end.

(** [s || d] on strings *)
Definition or_default (s d : string) : string :=
  if String.eqb s "" then d else s.

(** The white space that [trim] strips: the [WhiteSpace] and
    [LineTerminator] code points of the language.  Those of one byte are
    U+0009 to U+000D and U+0020. *)
Definition is_space (c : Ascii.ascii) : bool :=
  let n := Ascii.nat_of_ascii c in
  (n =? 32)%nat || ((9 <=? n)%nat && (n <=? 13)%nat).

(** of two bytes: U+00A0, the bytes C2 A0 *)
Definition is_space2 (c1 c2 : Ascii.ascii) : bool :=
  (Ascii.nat_of_ascii c1 =? 194)%nat && (Ascii.nat_of_ascii c2 =? 160)%nat.

(** of three bytes: U+1680 (E1 9A 80), U+2000 to U+200A (E2 80 80 to
    E2 80 8A), U+2028 and U+2029 (E2 80 A8, E2 80 A9), U+202F (E2 80 AF),
    U+205F (E2 81 9F), U+3000 (E3 80 80) and U+FEFF (EF BB BF) *)
Definition is_space3 (c1 c2 c3 : Ascii.ascii) : bool :=
  let a := Ascii.nat_of_ascii c1 in
  let b := Ascii.nat_of_ascii c2 in
  let c := Ascii.nat_of_ascii c3 in
  ((a =? 225) && (b =? 154) && (c =? 128))%nat
  || ((a =? 226) && (b =? 128)
      && (((128 <=? c) && (c <=? 138)) || (c =? 168) || (c =? 169) || (c =? 175)))%nat
  || ((a =? 226) && (b =? 129) && (c =? 159))%nat
  || ((a =? 227) && (b =? 128) && (c =? 128))%nat
  || ((a =? 239) && (b =? 187) && (c =? 191))%nat.

(** [s.trim() === '']: the string is made of white space only *)
Fixpoint is_blank (s : string) : bool :=
  match s with
  | EmptyString => true
  | String c1 r1 =>
      if is_space c1 then is_blank r1
      else
        match r1 with
        | String c2 r2 =>
            if is_space2 c1 c2 then is_blank r2
            else
              match r2 with
              | String c3 r3 => is_space3 c1 c2 c3 && is_blank r3
              | EmptyString => false
              end
        | EmptyString => false
        end
  end.

(** the outer [catch] *)
Definition caught (url message : string) : Result :=
  Err ("Fetch error for '" +:+ url +:+ "': " +:+ or_default message "Unknown error").

Definition safeFetchJSON (url : string) (f : fetched) : Result :=
  match f with
  | Rejected m => caught url m
  | Responded r =>
      if negb (ok r) then
        let errorText :=
          if is_json (contentType r) then
            match json_stringified r with
            | Read s => s
            | ReadError _ => "Failed to read response body"
            end
          else
            match text r with
            | Read s => or_default s "Empty response body"
            | ReadError _ => "Failed to read response body"
            end in
        Err ("Failed to fetch '" +:+ url +:+ "' with code " +:+
             Js.nat_to_string (status r) +:+ " " +:+ statusText r +:+ ": " +:+
             errorText)
      else if (status r =? 204)%nat then Ok (Js.VObj [])
      else
        match text r with
        | ReadError m => caught url m
        | Read t =>
            if (status r =? 200)%nat && (String.eqb t "" || is_blank t)
            then Ok (Js.VObj [])
            else if negb (is_json (contentType r)) then
              Err ("Expected JSON response from '" +:+ url +:+ "', got " +:+
                   or_default (default "" (contentType r)) "no content-type" +:+
                   " with code " +:+ Js.nat_to_string (status r) +:+ " " +:+
                   statusText r +:+ ": " +:+ or_default t "Empty response body")
            else
              match text_parsed r with
              | Read data => Ok data
              | ReadError m => caught url m
              end
        end
  end.

(** *** Replies to run examples on *)

(** [200 OK] with the JSON text of the number [n] *)
Definition number_reply (n : Z) : fetched :=
  Responded
    {| status := 200; statusText := "OK";
       contentType := Some "application/json";
       json_stringified := Read (Js.Z_to_string n);
       text := Read (Js.Z_to_string n);
       text_parsed := Read (Js.VNum n) |}.

(** [429 Too Many Requests] with an empty body *)
Definition too_many_requests : fetched :=
  Responded
    {| status := 429; statusText := "Too Many Requests";
       contentType := None;
       json_stringified := ReadError "Unexpected end of JSON input";
       text := Read "";
       text_parsed := ReadError "Unexpected end of JSON input" |}.

(** the double quote, for JSON texts *)
Definition quote : string := String (Ascii.ascii_of_nat 34) EmptyString.

(** [200 OK] with the JSON text of [{ voted: n }] *)
Definition voted_reply (n : Z) : fetched :=
  Responded
    {| status := 200; statusText := "OK";
       contentType := Some "application/json; charset=utf-8";
       json_stringified :=
         Read ("{" +:+ quote +:+ "voted" +:+ quote +:+ ":" +:+ Js.Z_to_string n +:+ "}");
       text :=
         Read ("{" +:+ quote +:+ "voted" +:+ quote +:+ ":" +:+ Js.Z_to_string n +:+ "}");
       text_parsed := Read (Js.VObj [("voted", Js.VNum n)]) |}.

(** [200 OK] with the JSON text [null] *)
Definition null_reply : fetched :=
  Responded
    {| status := 200; statusText := "OK";
       contentType := Some "application/json";
       json_stringified := Read "null";
       text := Read "null";
       text_parsed := Read Js.VNull |}.

(** [200 OK] whose body is the one character U+00A0, a no-break space *)
Definition nbsp : string :=
  String (Ascii.ascii_of_nat 194) (String (Ascii.ascii_of_nat 160) EmptyString).

Definition nbsp_reply : fetched :=
  Responded
    {| status := 200; statusText := "OK";
       contentType := Some "text/plain";
       json_stringified := ReadError "Unexpected token";
       text := Read nbsp;
       text_parsed := ReadError "Unexpected token" |}.

(** [404 Not Found] with a plain text body *)
Definition not_found : fetched :=
  Responded
    {| status := 404; statusText := "Not Found";
       contentType := Some "text/plain";
       json_stringified := ReadError "Unexpected token";
       text := Read "no such bot";
       text_parsed := ReadError "Unexpected token" |}.

End Fetcher.

(** ** What the two wrappers share *)

Inductive verb : Type := GET | POST | PATCH.

Definition is_GET (m : verb) : bool :=
  match m with
  | GET => true
  | _ => false
  end.

Definition is_POST (m : verb) : bool :=
  match m with
  | POST => true
  | _ => false
  end.

(** a call of [fetch]: headers are [Content-Type: application/json] and
    [Authorization]; the body is kept as the value handed to [JSON.stringify] *)
Record request : Type := mkRequest {
  url : string;
  method : verb;
  authorization : string;
  body : option Js.value
}.

(** [body ? JSON.stringify(body) : undefined] *)
Definition request_body (b : Js.value) : option Js.value :=
  if Js.truthy b then Some b else None.

Record entry : Type := mkEntry {
  data : Js.value;
  expiry : Z
}.

(** What the environment contributes to one call of a wrapper method. *)
Record env : Type := mkEnv {
  now : Z;                    (* Date.now() before the request is sent *)
  reply : Fetcher.fetched;    (* what fetch settles with, if it is called *)
  later : Z                   (* Date.now() once the reply is in *)
}.

(** the call is made at [t0], the reply [r] is in at [t1] *)
Definition exchange (t0 : Z) (r : Fetcher.fetched) (t1 : Z) : env :=
  {| now := t0; reply := r; later := t1 |}.

(** the entry under [key] that a read at time [t0] can see *)
Definition live (c : gmap string entry) (key : string) (t0 : Z) : option entry :=
  match c !! key with
  | Some x => if (t0 <? expiry x)%Z then Some x else None
  | None => None
  end.

(** ** [Date.prototype.toISOString] *)

Module JsDate.

Local Open Scope Z_scope.

Fixpoint zeros (n : nat) : string :=
  match n with
  | O => ""
  | S k => "0" +:+ zeros k
  end.

(** [String(n).padStart(width, '0')] for [0 <= n] *)
Definition pad (width : nat) (n : Z) : string :=
  let s := Js.Z_to_string n in
  zeros (width - String.length s) +:+ s.

(** year, month and day of a day count since 1970-01-01, proleptic Gregorian *)
Definition civil (days : Z) : Z * Z * Z :=
  let z := days + 719468 in
  let era := z / 146097 in
  let doe := z mod 146097 in
  let yoe := (doe - doe / 1460 + doe / 36524 - doe / 146096) / 365 in
  let doy := doe - (365 * yoe + yoe / 4 - yoe / 100) in
  let mp := (5 * doy + 2) / 153 in
  let d := doy - (153 * mp + 2) / 5 + 1 in
  let m := if mp <? 10 then mp + 3 else mp - 9 in
  let y := yoe + era * 400 + (if m <=? 2 then 1 else 0) in
  (y, m, d).

(** [new Date(t).toISOString()].  The [RangeError] beyond 8.64e15 ms is not
    modelled: the argument is always [Date.now() + 60000]. *)
Definition toISOString (t : Z) : string :=
  let ms := t mod 86400000 in
  let '(y, m, d) := civil (t / 86400000) in
  let year :=
    if (0 <=? y) && (y <=? 9999) then pad 4 y
    else (if y <? 0 then "-" else "+") +:+ pad 6 (Z.abs y) in
  year +:+ "-" +:+ pad 2 m +:+ "-" +:+ pad 2 d +:+ "T" +:+
  pad 2 (ms / 3600000) +:+ ":" +:+ pad 2 (ms / 60000 mod 60) +:+ ":" +:+
  pad 2 (ms / 1000 mod 60) +:+ "." +:+ pad 3 (ms mod 1000) +:+ "Z".

End JsDate.

(** ** [class AriwaAPI] *)

Module AriwaAPI.

Local Open Scope Z_scope.

Definition BASE_URL : string := "https://api.websockets-topgg.com/v0/api".

Record t : Type := mk {
  token : string;
  cacheTTL : Z;
  cache : gmap string entry
}.

Definition with_cache (c : gmap string entry) (st : t) : t :=
  {| token := token st; cacheTTL := cacheTTL st; cache := c |}.

(** [new AriwaAPI({ token, cacheTTL })] *)
Definition new (tok : string) (ttl : option Z) : completion t :=
  if String.eqb tok "" then Thrown "AriwaAPI requires a token"
  else Normal {| token := tok; cacheTTL := default (5 * 60 * 1000) ttl; cache := ∅ |}.

Definition getCacheKey (path : string) : string := path.

Definition invalidateCache (st : t) (path : string) : t :=
  with_cache (delete (getCacheKey path) (cache st)) st.

Definition clearCache (st : t) : t := with_cache ∅ st.

Definition _fetch (st : t) (path : string) (m : verb) (b : Js.value) (e : env)
  : Result * list request :=
  let u := BASE_URL +:+ path in
  (Fetcher.safeFetchJSON u (reply e),
   [{| url := u; method := m; authorization := token st; body := request_body b |}]).

Definition _fetchWithCache (st : t) (path : string) (m : verb) (b : Js.value) (e : env)
  : Result * t * list request :=
  if negb (is_GET m) then
    let '(result, reqs) := _fetch st path m b e in
    if isOk result && Js.includes "/user/" path && Js.ends_with "/reminders" path then
      match Js.match_group "/user/" "" path with
      | Some userId => (result, invalidateCache st ("/user/" +:+ userId), reqs)
      | None => (result, st, reqs)
      end
    else (result, st, reqs)
  else
    let key := getCacheKey path in
    let miss :=
      let '(result, reqs) := _fetch st path m b e in
      match result with
      | Ok v =>
          (result,
           with_cache (<[key := {| data := v; expiry := later e + cacheTTL st |}]> (cache st)) st,
           reqs)
      | Err _ => (result, st, reqs)
      end in
    match cache st !! key with
    | Some cached => if now e <? expiry cached then (Ok (data cached), st, []) else miss
    | None => miss
    end.

Definition getEntity (st : t) (e : env) : Result * t * list request :=
  _fetchWithCache st "/entity" GET Js.VUndefined e.

Definition getUser (st : t) (userId : string) (e : env) : Result * t * list request :=
  _fetchWithCache st ("/user/" +:+ userId) GET Js.VUndefined e.

(** [enabled] is [None] when the caller passes [undefined] *)
Definition setUserReminders (st : t) (userId : string) (enabled : option bool) (e : env)
  : Result * t * list request :=
  match enabled with
  | None => (Err "remindersEnabled must be true or false", st, [])
  | Some b =>
      _fetchWithCache st ("/user/" +:+ userId +:+ "/reminders") PATCH
        (Js.VObj [("enable", Js.VBool b)]) e
  end.

(** the request that [_fetch] sends *)
Definition request_of (st : t) (path : string) (m : verb) (b : Js.value) : request :=
  {| url := BASE_URL +:+ path; method := m; authorization := token st;
     body := request_body b |}.

End AriwaAPI.

(** ** [class TopGGAPI] *)

Module TopGG.

Local Open Scope Z_scope.

Definition TOPGG_BASE_URL : string := "https://top.gg/api".

(** The values of a query object: the public methods that pass one
    ([getBots], [hasVoted]) declare numbers and strings. *)
Inductive scalar : Type :=
| SNum (n : Z)
| SStr (s : string).

Definition scalar_to_string (v : scalar) : string :=
  match v with
  | SNum n => Js.Z_to_string n
  | SStr s => s
  end.

Record t : Type := mk {
  token : option string;
  cacheTTL : Z;
  cache : gmap string entry;
  rateLimitReset : option Z
}.

Definition with_cache (c : gmap string entry) (st : t) : t :=
  {| token := token st; cacheTTL := cacheTTL st; cache := c;
     rateLimitReset := rateLimitReset st |}.

Definition with_rateLimitReset (r : Z) (st : t) : t :=
  {| token := token st; cacheTTL := cacheTTL st; cache := cache st;
     rateLimitReset := Some r |}.

(** [new TopGGAPI(options)]; [options] is [undefined] or [{ token, cacheTTL }] *)
Definition new (options : option (string * option Z)) : t :=
  {| token := fst <$> options;
     cacheTTL := default (5 * 60 * 1000) (options ≫= snd);
     cache := ∅;
     rateLimitReset := None |}.

(** [!this.token] is false *)
Definition has_token (st : t) : bool :=
  match token st with
  | Some s => negb (String.eqb s "")
  | None => false
  end.

(** [this.rateLimitReset && Date.now() < this.rateLimitReset] *)
Definition limited (st : t) (t0 : Z) : bool :=
  match rateLimitReset st with
  | Some r => negb (r =? 0) && (t0 <? r)
  | None => false
  end.

(** [localeCompare] is taken as the order of the code units; the two agree on
    the lower-case keys that [getBots] and [hasVoted] pass. *)
Fixpoint insert_by_key (x : string * scalar) (l : list (string * scalar))
  : list (string * scalar) :=
  match l with
  | [] => [x]
  | y :: rest =>
      match String.compare (fst x) (fst y) with
      | Gt => y :: insert_by_key x rest
      | _ => x :: l
      end
  end.

(** a stable sort, as [Array.prototype.sort] is *)
Definition sort_entries (q : list (string * scalar)) : list (string * scalar) :=
  foldr insert_by_key [] q.

Fixpoint join (sep : string) (l : list string) : string :=
  match l with
  | [] => ""
  | x :: rest =>
      match rest with
      | [] => x
      | _ :: _ => x +:+ sep +:+ join sep rest
      end
  end.

Definition getCacheKey (path : string) (query : option (list (string * scalar))) : string :=
  match query with
  | Some q =>
      path +:+ "?" +:+
      join "&" (map (fun kv => fst kv +:+ "=" +:+ scalar_to_string (snd kv)) (sort_entries q))
  | None => path
  end.

Definition hex_digit (n : nat) : string :=
  String.substring n 1 "0123456789ABCDEF".

(** the [application/x-www-form-urlencoded] byte serializer of
    [URLSearchParams.prototype.toString] *)
Definition form_encode_char (c : Ascii.ascii) : string :=
  let n := Ascii.nat_of_ascii c in
  if ((48 <=? n) && (n <=? 57) || (65 <=? n) && (n <=? 90) || (97 <=? n) && (n <=? 122)
      || (n =? 42) || (n =? 45) || (n =? 46) || (n =? 95))%nat
  then String c EmptyString
  else if (n =? 32)%nat then "+"
  else "%" +:+ hex_digit (n / 16) +:+ hex_digit (n mod 16).

Fixpoint form_encode (s : string) : string :=
  match s with
  | EmptyString => ""
  | String c rest => form_encode_char c +:+ form_encode rest
  end.

Definition search_params (q : list (string * scalar)) : string :=
  join "&" (map (fun kv => form_encode (fst kv) +:+ "=" +:+
                           form_encode (scalar_to_string (snd kv))) q).

Definition build_url (path : string) (query : option (list (string * scalar))) : string :=
  match query with
  | Some q => TOPGG_BASE_URL +:+ path +:+ "?" +:+ search_params q
  | None => TOPGG_BASE_URL +:+ path
  end.

Definition invalidateCache (st : t) (path : string)
  (query : option (list (string * scalar))) : t :=
  with_cache (delete (getCacheKey path query) (cache st)) st.

Definition clearCache (st : t) : t := with_cache ∅ st.

(** The two readings of [Date.now()] that precede the request (the cache test
    and the cooldown test) fall in one synchronous stretch and are both
    [now e]. *)
Definition _fetch (st : t) (path : string) (m : verb) (b : Js.value)
  (query : option (list (string * scalar))) (e : env) : Result * t * list request :=
  if negb (has_token st) then (Err "Top.gg token not provided", st, [])
  else if limited st (now e) then
    (Err ("Rate limited until " +:+ JsDate.toISOString (default 0 (rateLimitReset st))),
     st, [])
  else
    let u := build_url path query in
    let req := {| url := u; method := m; authorization := default "" (token st);
                  body := request_body b |} in
    match Fetcher.safeFetchJSON u (reply e) with
    | Err msg =>
        if Js.includes "429" msg
        then (Err "Rate limit exceeded, retry later",
              with_rateLimitReset (later e + 60 * 1000) st, [req])
        else (Err msg, st, [req])
    | Ok v => (Ok v, st, [req])
    end.

Definition _fetchWithCache (st : t) (path : string) (m : verb) (b : Js.value)
  (query : option (list (string * scalar))) (e : env) : Result * t * list request :=
  if negb (is_GET m) then
    let '(result, st1, reqs) := _fetch st path m b query e in
    if isOk result && is_POST m && Js.ends_with "/stats" path then
      match Js.match_group "/bots/" "/stats" path with
      | Some botId =>
          (result,
           invalidateCache
             (invalidateCache st1 ("/bots/" +:+ botId +:+ "/stats") None)
             ("/bots/" +:+ botId) None,
           reqs)
      | None => (result, st1, reqs)
      end
    else (result, st1, reqs)
  else
    let key := getCacheKey path query in
    let miss :=
      let '(result, st1, reqs) := _fetch st path m b query e in
      match result with
      | Ok v =>
          (result,
           with_cache (<[key := {| data := v; expiry := later e + cacheTTL st1 |}]> (cache st1)) st1,
           reqs)
      | Err _ => (result, st1, reqs)
      end in
    match cache st !! key with
    | Some cached => if now e <? expiry cached then (Ok (data cached), st, []) else miss
    | None => miss
    end.

(** the public methods that go to the network *)
Inductive call : Type :=
| postStats (botId : string) (stats : Js.value)
| getBots (options : list (string * scalar))
| getBot (botId : string)
| getVotes (botId : string)
| hasVoted (botId userId : string)
| getStats (botId : string).

Definition settled (x : Result * t * list request) : completion Result * t * list request :=
  let '(r, st, reqs) := x in (Normal r, st, reqs).

Definition run (st : t) (c : call) (e : env) : completion Result * t * list request :=
  match c with
  | postStats botId stats =>
      settled (_fetchWithCache st ("/bots/" +:+ botId +:+ "/stats") POST stats None e)
  | getBots options =>
      settled (_fetchWithCache st "/bots" GET Js.VUndefined (Some options) e)
  | getBot botId =>
      settled (_fetchWithCache st ("/bots/" +:+ botId) GET Js.VUndefined None e)
  | getVotes botId =>
      settled (_fetchWithCache st ("/bots/" +:+ botId +:+ "/votes") GET Js.VUndefined None e)
  | hasVoted botId userId =>
      let '(result, st1, reqs) :=
        _fetchWithCache st ("/bots/" +:+ botId +:+ "/check") GET Js.VUndefined
          (Some [("userId", SStr userId)]) e in
      match result with
      | Ok v =>
          if Js.nullish v
          then (Thrown "TypeError: Cannot read properties of null (reading 'voted')", st1, reqs)
          else (Normal (Ok (Js.VBool (Js.is_num (Js.get v "voted") 1))), st1, reqs)
      | Err msg => (Normal (Err msg), st1, reqs)
      end
  | getStats botId =>
      settled (_fetchWithCache st ("/bots/" +:+ botId +:+ "/stats") GET Js.VUndefined None e)
  end.

(** everything a holder of the object can do with it *)
Inductive op : Type :=
| Call (c : call) (e : env)
| Invalidate (path : string) (query : option (list (string * scalar)))
| Clear.

(** a sequence of operations, one after the other: the outcomes of the
    calls and the requests that went out, both in order *)
Fixpoint exec (ops : list op) (st : t) : list (completion Result) * list request * t :=
  match ops with
  | [] => ([], [], st)
  | Call c e :: rest =>
      let '(r, st1, reqs) := run st c e in
      let '(rs, reqs', st2) := exec rest st1 in
      (r :: rs, reqs ++ reqs', st2)
  | Invalidate path query :: rest => exec rest (invalidateCache st path query)
  | Clear :: rest => exec rest (clearCache st)
  end.

(** *** Vocabulary for the statements *)

Definition no_token_message : string := "Top.gg token not provided".

Definition limited_message (st : t) : string :=
  "Rate limited until " +:+ JsDate.toISOString (default 0 (rateLimitReset st)).

Definition request_of (st : t) (path : string) (m : verb) (b : Js.value)
  (query : option (list (string * scalar))) : request :=
  {| url := build_url path query; method := m;
     authorization := default "" (token st); body := request_body b |}.

Definition is_call (o : op) : bool :=
  match o with
  | Call _ _ => true
  | _ => false
  end.

(** every public method is one call of [_fetchWithCache] *)
Definition plan (c : call) : string * verb * Js.value * option (list (string * scalar)) :=
  match c with
  | postStats botId stats => ("/bots/" +:+ botId +:+ "/stats", POST, stats, None)
  | getBots options => ("/bots", GET, Js.VUndefined, Some options)
  | getBot botId => ("/bots/" +:+ botId, GET, Js.VUndefined, None)
  | getVotes botId => ("/bots/" +:+ botId +:+ "/votes", GET, Js.VUndefined, None)
  | hasVoted botId userId =>
      ("/bots/" +:+ botId +:+ "/check", GET, Js.VUndefined, Some [("userId", SStr userId)])
  | getStats botId => ("/bots/" +:+ botId +:+ "/stats", GET, Js.VUndefined, None)
  end.

Definition fetched_by (st : t) (c : call) (e : env) : Result * t * list request :=
  let '(path, m, b, query) := plan c in _fetchWithCache st path m b query e.

(** the entry that a call may answer from: only a [GET] reads the cache *)
Definition served (st : t) (path : string) (m : verb)
  (query : option (list (string * scalar))) (t0 : Z) : option entry :=
  if is_GET m then live (cache st) (getCacheKey path query) t0 else None.

(** an operation that is not a call, or a call issued before [R] *)
Definition in_window (R : Z) (o : op) : Prop :=
  match o with
  | Call _ e => (now e < R)%Z
  | _ => True
  end.

(** *** Sessions to run examples on *)

(** a wrapper with a token and a TTL of one second *)
Definition sample : t := new (Some ("token", Some 1000)).

(** a bot is read, then another read is answered 429, then the bot is read
    again 15 ms later *)
Definition hit_in_cooldown : list op :=
  [Call (getBot "1") (exchange 0 (Fetcher.number_reply 7) 5);
   Call (getStats "1") (exchange 10 Fetcher.too_many_requests 15);
   Call (getBot "1") (exchange 20 (Fetcher.number_reply 8) 25)].

(** the same, but the last read comes after the entry has expired *)
Definition expired_in_cooldown : list op :=
  [Call (getBot "1") (exchange 0 (Fetcher.number_reply 7) 5);
   Call (getStats "1") (exchange 500 Fetcher.too_many_requests 510);
   Call (getBot "1") (exchange 2000 (Fetcher.number_reply 8) 2010)].

(** stats are read, posted and read again for an id that holds a slash *)
Definition slash_in_id : list op :=
  [Call (getStats "a/b") (exchange 0 (Fetcher.number_reply 7) 5);
   Call (postStats "a/b" (Js.VObj [("server_count", Js.VNum 32)]))
        (exchange 10 (Fetcher.number_reply 0) 15);
   Call (getStats "a/b") (exchange 20 (Fetcher.number_reply 9) 25)].


(** the request of [hasVoted] *)
Definition check_path (botId : string) : string := "/bots/" +:+ botId +:+ "/check".

Definition check_query (userId : string) : option (list (string * scalar)) :=
  Some [("userId", SStr userId)].

End TopGG.

(** ** [class AriwaClient] *)

Module Client.

Definition WS_URL : string := "wss://api.websockets-topgg.com/v0/websocket".

(** [maxReconnectAttempts]: a number, or [Infinity] *)
Inductive limit : Type :=
| Finite (q : Q)
| Infinity.

(** [n < l] *)
Definition below (n : nat) (l : limit) : bool :=
  match l with
  | Finite q => negb (Qle_bool q (inject_Z (Z.of_nat n)))
  | Infinity => true
  end.

(** the private fields; [ws] holds the index of the socket in the table of
    the world below *)
Record client : Type := mkClient {
  wsToken : string;
  name : string;
  ws : option nat;
  lastMessageTimestamp : Js.value;
  autoReconnect : bool;
  reconnectDelay : Double.double;
  maxReconnectDelay : Double.double;
  maxReconnectAttempts : limit;
  reconnectAttempts : nat;
  intentionalClose : bool;
  persistPath : option string
}.

Definition set_ws (x : option nat) (c : client) : client :=
  {| wsToken := wsToken c; name := name c; ws := x;
     lastMessageTimestamp := lastMessageTimestamp c; autoReconnect := autoReconnect c;
     reconnectDelay := reconnectDelay c; maxReconnectDelay := maxReconnectDelay c;
     maxReconnectAttempts := maxReconnectAttempts c;
     reconnectAttempts := reconnectAttempts c; intentionalClose := intentionalClose c;
     persistPath := persistPath c |}.

Definition set_lastMessageTimestamp (x : Js.value) (c : client) : client :=
  {| wsToken := wsToken c; name := name c; ws := ws c;
     lastMessageTimestamp := x; autoReconnect := autoReconnect c;
     reconnectDelay := reconnectDelay c; maxReconnectDelay := maxReconnectDelay c;
     maxReconnectAttempts := maxReconnectAttempts c;
     reconnectAttempts := reconnectAttempts c; intentionalClose := intentionalClose c;
     persistPath := persistPath c |}.

Definition set_reconnectAttempts (x : nat) (c : client) : client :=
  {| wsToken := wsToken c; name := name c; ws := ws c;
     lastMessageTimestamp := lastMessageTimestamp c; autoReconnect := autoReconnect c;
     reconnectDelay := reconnectDelay c; maxReconnectDelay := maxReconnectDelay c;
     maxReconnectAttempts := maxReconnectAttempts c;
     reconnectAttempts := x; intentionalClose := intentionalClose c;
     persistPath := persistPath c |}.

Definition set_intentionalClose (x : bool) (c : client) : client :=
  {| wsToken := wsToken c; name := name c; ws := ws c;
     lastMessageTimestamp := lastMessageTimestamp c; autoReconnect := autoReconnect c;
     reconnectDelay := reconnectDelay c; maxReconnectDelay := maxReconnectDelay c;
     maxReconnectAttempts := maxReconnectAttempts c;
     reconnectAttempts := reconnectAttempts c; intentionalClose := x;
     persistPath := persistPath c |}.

(** the events of the emitter *)
Inductive event : Type :=
| EvOpen
| EvReady (d : Js.value)
| EvVote (payload : Js.value)
| EvTest (payload : Js.value)
| EvReminder (payload : Js.value)
| EvUnknownOp (op d : Js.value)
| EvDisconnected (code : Z) (reason : string)
| EvError (err : string).

Definition event_name (e : event) : string :=
  match e with
  | EvOpen => "open"
  | EvReady _ => "ready"
  | EvVote _ => "vote"
  | EvTest _ => "test"
  | EvReminder _ => "reminder"
  | EvUnknownOp _ _ => "unknownOp"
  | EvDisconnected _ _ => "disconnected"
  | EvError _ => "error"
  end.

Inductive timer : Type :=
| ReconnectTimer (delay : Double.double)   (* setTimeout(() => this._connect(), delay) *)
| DisconnectTimeout.                       (* setTimeout(() => reject(...), 5000) *)

(** what the client does to the outside *)
Inductive effect : Type :=
| Emit (e : event)
| SaveTimestamp (path : string) (content : Js.value)
| NewWebSocket (id : nat) (headers : list (string * string))
| SetTimeout (id : nat) (t : timer)
| CloseSocket (id : nat) (code : Z) (reason : string)
| Terminate (id : nat)
| Resolve
| Reject (err : string).

(** an effect, with the fields of the client as they stand when it is issued *)
Record observed : Type := mkObserved {
  what : effect;
  seen : client
}.

Inductive ready_state : Type := CONNECTING | OPEN | CLOSING | CLOSED.

Definition is_OPEN (s : ready_state) : bool :=
  match s with
  | OPEN => true
  | _ => false
  end.

(** A [WebSocket] object: its state, the handshake headers, whether the four
    listeners of [_connect] are attached, and the [close]/[error] listener
    pairs that calls of [disconnect] attached, each named by the timer it
    clears. *)
Record socket : Type := mkSocket {
  readyState : ready_state;
  handshake : list (string * string);
  listening : bool;
  closing : list nat
}.

Record world : Type := mkWorld {
  me : client;
  sockets : list socket;
  timers : list (nat * timer);
  next_timer : nat
}.

Definition with_me (f : client -> client) (w : world) : world :=
  {| me := f (me w); sockets := sockets w; timers := timers w;
     next_timer := next_timer w |}.

Definition with_sockets (f : list socket -> list socket) (w : world) : world :=
  {| me := me w; sockets := f (sockets w); timers := timers w;
     next_timer := next_timer w |}.

Definition with_timers (f : list (nat * timer) -> list (nat * timer)) (w : world) : world :=
  {| me := me w; sockets := sockets w; timers := f (timers w);
     next_timer := next_timer w |}.

(** *** The monad of the handlers: state, a log, and exceptions *)

Definition M (A : Type) : Type := world -> completion A * world * list observed.

Definition ret {A : Type} (a : A) : M A := fun w => (Normal a, w, []).

Definition bind {A B : Type} (m : M A) (k : A -> M B) : M B :=
  fun w =>
    match m w with
    | (Normal a, w1, l1) => let '(r, w2, l2) := k a w1 in (r, w2, l1 ++ l2)
    | (Thrown e, w1, l1) => (Thrown e, w1, l1)
    end.

Notation "x <- m ;; k" := (bind m (fun x => k))
  (at level 100, m at next level, right associativity).
Notation "m ;; k" := (bind m (fun _ => k))
  (at level 100, right associativity).

Definition this : M client := fun w => (Normal (me w), w, []).
Definition state : M world := fun w => (Normal w, w, []).
Definition update (f : world -> world) : M unit := fun w => (Normal tt, f w, []).
Definition assign (f : client -> client) : M unit := update (with_me f).
Definition issue (e : effect) : M unit :=
  fun w => (Normal tt, w, [{| what := e; seen := me w |}]).
Definition throw {A : Type} (e : string) : M A := fun w => (Thrown e, w, []).
Definition emit (e : event) : M unit := issue (Emit e).

Fixpoint for_each {A : Type} (l : list A) (f : A -> M unit) : M unit :=
  match l with
  | [] => ret tt
  | x :: rest => f x ;; for_each rest f
  end.

(** *** [handleMessage] *)

(** [const { op, d, ts } = data] *)
Definition destructure (data : Js.value) : option (Js.value * Js.value * Js.value) :=
  if Js.nullish data then None
  else Some (Js.get data "op", Js.get data "d", Js.get data "ts").

(** [this.persistPath] when it is truthy *)
Definition persist_target (c : client) : option string :=
  match persistPath c with
  | Some p => if String.eqb p "" then None else Some p
  | None => None
  end.

Definition handleMessage (raw : parsed) : M unit :=
  match raw with
  | Malformed err => emit (EvError err)
  | Decoded data =>
      match destructure data with
      | None => throw "TypeError: Cannot destructure property 'op' of 'data'"
      | Some (op, d, ts) =>
          (if Js.is_num op 3 then emit (EvReady d)
           else if Js.is_num op 10 then emit (EvVote (Js.spread_with d "ts" ts))
           else if Js.is_num op 11 then emit (EvTest (Js.spread_with d "ts" ts))
           else if Js.is_num op 12 then emit (EvReminder (Js.spread_with d "ts" ts))
           else emit (EvUnknownOp op d)) ;;
          if Js.truthy ts then
            assign (set_lastMessageTimestamp ts) ;;
            c <- this ;;
            match persist_target c with
            | Some path => issue (SaveTimestamp path (Persist.saveTimestamp ts))
            | None => ret tt
            end
          else ret tt
      end
  end.

(** *** [_connect], [reconnect] and the listeners *)

Definition _connect : M unit :=
  c <- this ;;
  w <- state ;;
  let headers :=
    [("Authorization", wsToken c); ("name", name c)] ++
    (if Js.truthy (lastMessageTimestamp c)
     then [("lastMessageTimestamp", Js.to_string (lastMessageTimestamp c))]
     else []) in
  let id := length (sockets w) in
  issue (NewWebSocket id headers) ;;
  update (with_sockets (fun l =>
    l ++ [{| readyState := CONNECTING; handshake := headers;
             listening := true; closing := [] |}])) ;;
  assign (set_ws (Some id)).

(** What [Math] gives during a call of [reconnect].  The language leaves the
    value of [Math.pow(1.5, k)] to the engine, as an approximation of its
    choice: [pow k] is the double that the engine returns for the exponent
    [k], which is never negative since [reconnect] increments the counter
    first.  [random] is the sample of [Math.random()]. *)
Record math : Type := mkMath {
  pow : nat -> Double.double;
  random : Double.double
}.

(** the delay once the counter has been incremented to [attempts]:
    [Math.min(reconnectDelay * Math.pow(1.5, attempts - 1), maxReconnectDelay)
     + Math.random() * 1000] *)
Definition backoff (c : client) (attempts : nat) (rnd : math) : Double.double :=
  Double.add
    (Double.min (Double.mul (reconnectDelay c) (pow rnd (attempts - 1)))
                (maxReconnectDelay c))
    (Double.mul (random rnd) (Double.of_Z 1000)).

Definition set_timeout (t : timer) : M nat :=
  w <- state ;;
  let id := next_timer w in
  update (fun w => {| me := me w; sockets := sockets w;
                      timers := timers w ++ [(id, t)]; next_timer := S id |}) ;;
  issue (SetTimeout id t) ;;
  ret id.

Definition clear_timeout (id : nat) : M unit :=
  update (with_timers (filter (fun p => negb (Nat.eqb (fst p) id)))).

Definition reconnect (rnd : math) : M unit :=
  c <- this ;;
  assign (set_reconnectAttempts (S (reconnectAttempts c))) ;;
  c <- this ;;
  let delay := backoff c (reconnectAttempts c) rnd in
  _ <- set_timeout (ReconnectTimer delay) ;;
  ret tt.

(** [this.ws.on('open', ...)] *)
Definition on_open : M unit :=
  emit EvOpen ;;
  assign (set_reconnectAttempts 0).

(** [this.ws.on('close', ...)] *)
Definition on_close (code : Z) (reason : string) (rnd : math) : M unit :=
  emit (EvDisconnected code reason) ;;
  c <- this ;;
  if negb (intentionalClose c) && autoReconnect c && negb (code =? 1000)%Z
     && below (reconnectAttempts c) (maxReconnectAttempts c)
  then reconnect rnd
  else ret tt.

(** [this.ws.on('error', ...)] *)
Definition on_error (err : string) : M unit := emit (EvError err).

(** *** [disconnect] *)

Definition socket_state (w : world) (id : nat) : option ready_state :=
  readyState <$> (sockets w !! id).

Definition alter_socket (id : nat) (f : socket -> socket) : M unit :=
  update (with_sockets (alter f id)).

Definition removeAllListeners (id : nat) : M unit :=
  alter_socket id (fun s =>
    {| readyState := readyState s; handshake := handshake s;
       listening := false; closing := [] |}).

Definition add_closing (t : nat) (s : socket) : socket :=
  {| readyState := readyState s; handshake := handshake s;
     listening := listening s; closing := closing s ++ [t] |}.

Definition set_readyState (r : ready_state) (s : socket) : socket :=
  {| readyState := r; handshake := handshake s;
     listening := listening s; closing := closing s |}.

(** the [close] listener that [disconnect] attaches *)
Definition closed_after_disconnect (timeout : nat) : M unit :=
  clear_timeout timeout ;;
  c <- this ;;
  match ws c with
  | Some id => removeAllListeners id ;; issue (Terminate id)
  | None => ret tt
  end ;;
  assign (set_ws None) ;;
  issue Resolve.

(** the [error] listener that [disconnect] attaches *)
Definition failed_after_disconnect (timeout : nat) (err : string) : M unit :=
  clear_timeout timeout ;;
  c <- this ;;
  match ws c with
  | Some id => removeAllListeners id
  | None => ret tt
  end ;;
  assign (set_ws None) ;;
  issue (Reject err).

Definition disconnect : M unit :=
  c <- this ;;
  w <- state ;;
  match ws c with
  | Some id =>
      if is_OPEN (default CLOSED (socket_state w id)) then
        assign (set_intentionalClose true) ;;
        timeout <- set_timeout DisconnectTimeout ;;
        alter_socket id (add_closing timeout) ;;
        alter_socket id (set_readyState CLOSING) ;;
        issue (CloseSocket id 1000 "Client disconnect")
      else
        assign (set_ws None) ;; issue Resolve
  | None => assign (set_ws None) ;; issue Resolve
  end.

(** *** [connect] *)

(** [override] is the argument ([VUndefined] when omitted), [file] what the
    marker file gives should it be read.  The body does nothing before its
    [await], so the step stands for the moment at which the body runs: the
    call, or its resumption once the marker file has been read. *)
Definition connect (override : Js.value) (file : Persist.file_read) : M unit :=
  c <- this ;;
  let start :=
    if Js.nullish override then
      match persist_target c with
      | Some _ => Persist.loadTimestamp file
      | None => Js.VUndefined
      end
    else override in
  assign (set_lastMessageTimestamp start) ;;
  assign (set_intentionalClose false) ;;
  assign (set_reconnectAttempts 0) ;;
  _connect.

(** *** The event loop *)

Inductive input : Type :=
| CallConnect (override : Js.value) (file : Persist.file_read)
| CallDisconnect
| SocketOpens (id : nat)
| SocketMessage (id : nat) (raw : parsed)
| SocketCloses (id : nat) (code : Z) (reason : string) (rnd : math)
| SocketErrors (id : nat) (err : string)
| TimerFires (id : nat).

Definition is_CallConnect (i : input) : bool :=
  match i with
  | CallConnect _ _ => true
  | _ => false
  end.

(** The socket library sets [readyState] and then calls the listeners that
    were attached when the event is emitted: those of [_connect] first, then
    those of [disconnect] in the order of the calls.  An input that cannot
    happen in the current state (an unknown socket or timer, an [open] on a
    socket that is not connecting, anything on a closed socket) is skipped. *)
Definition step (i : input) : M unit :=
  w <- state ;;
  match i with
  | CallConnect override file => connect override file
  | CallDisconnect => disconnect
  | SocketOpens id =>
      match sockets w !! id with
      | Some s =>
          match readyState s with
          | CONNECTING =>
              alter_socket id (set_readyState OPEN) ;;
              if listening s then on_open else ret tt
          | _ => ret tt
          end
      | None => ret tt
      end
  | SocketMessage id raw =>
      match sockets w !! id with
      | Some s =>
          if is_OPEN (readyState s) && listening s then handleMessage raw else ret tt
      | None => ret tt
      end
  | SocketCloses id code reason rnd =>
      match sockets w !! id with
      | Some s =>
          match readyState s with
          | CLOSED => ret tt
          | _ =>
              alter_socket id (set_readyState CLOSED) ;;
              (if listening s then on_close code reason rnd else ret tt) ;;
              for_each (closing s) closed_after_disconnect
          end
      | None => ret tt
      end
  | SocketErrors id err =>
      match sockets w !! id with
      | Some s =>
          match readyState s with
          | CLOSED => ret tt
          | _ =>
              (if listening s then on_error err else ret tt) ;;
              for_each (closing s) (fun t => failed_after_disconnect t err)
          end
      | None => ret tt
      end
  | TimerFires id =>
      match list_find (fun p => fst p = id) (timers w) with
      | Some (_, (_, ReconnectTimer _)) => clear_timeout id ;; _connect
      | Some (_, (_, DisconnectTimeout)) =>
          clear_timeout id ;; issue (Reject "WebSocket close timed out")
      | None => ret tt
      end
  end.

(** A run of the loop.  A handler that throws (the promise of an [async]
    listener rejects) does not stop the loop. *)
Fixpoint run (inputs : list input) (w : world) : world * list observed :=
  match inputs with
  | [] => (w, [])
  | i :: rest =>
      let '(_, w1, l1) := step i w in
      let '(w2, l2) := run rest w1 in
      (w2, l1 ++ l2)
  end.

(** *** The constructor *)

Record reconnect_options : Type := mkReconnectOptions {
  initialDelay : option Double.double;
  maxDelay : option Double.double;
  maxAttempts : option limit
}.

Record options : Type := mkOptions {
  opt_topgg : option string;
  opt_ws : string;
  opt_name : string;
  opt_cache : option Z;
  opt_autoReconnect : option bool;
  opt_reconnectOptions : option reconnect_options;
  opt_persistPath : option string
}.

(** the facade: the event machine and the two wrappers *)
Record AriwaClient : Type := mkAriwaClient {
  core : world;
  wsApi : AriwaAPI.t;
  topgg : TopGG.t
}.

Definition new_client (o : options) : client :=
  {| wsToken := opt_ws o;
     name := opt_name o;
     ws := None;
     lastMessageTimestamp := Js.VUndefined;
     autoReconnect := default true (opt_autoReconnect o);
     reconnectDelay := default (Double.of_Z 1000) (opt_reconnectOptions o ≫= initialDelay);
     maxReconnectDelay := default (Double.of_Z 30000) (opt_reconnectOptions o ≫= maxDelay);
     maxReconnectAttempts := default Infinity (opt_reconnectOptions o ≫= maxAttempts);
     reconnectAttempts := 0;
     intentionalClose := false;
     persistPath := opt_persistPath o |}.

Definition boot (c : client) : world :=
  {| me := c; sockets := []; timers := []; next_timer := 0 |}.

Definition new (o : options) : completion AriwaClient :=
  match AriwaAPI.new (opt_ws o) (opt_cache o) with
  | Thrown e => Thrown e
  | Normal api =>
      Normal {| core := boot (new_client o);
                wsApi := api;
                topgg := TopGG.new
                  (match opt_topgg o with
                   | Some tok =>
                       if String.eqb tok "" then None else Some (tok, opt_cache o)
                   | None => None
                   end) |}
  end.

(** *** Reading a log *)

(** the event that the wire protocol assigns to a frame: [3] is [ready] with
    the payload as it is, [10], [11], [12] are [vote], [test], [reminder] with
    the marker merged into the payload, the rest is [unknownOp] *)
Definition dispatched (op d ts : Js.value) : event :=
  match op with
  | Js.VNum 3 => EvReady d
  | Js.VNum 10 => EvVote (Js.spread_with d "ts" ts)
  | Js.VNum 11 => EvTest (Js.spread_with d "ts" ts)
  | Js.VNum 12 => EvReminder (Js.spread_with d "ts" ts)
  | _ => EvUnknownOp op d
  end.

(** the marker held in memory *)
Definition stored (w : world) : Js.value := lastMessageTimestamp (me w).

(** socket [id] is open and still has the listeners of [_connect] *)
Definition receiving (id : nat) (w : world) : Prop :=
  exists s, sockets w !! id = Some s /\ readyState s = OPEN /\ listening s = true.

(** the condition of the [if] in the [close] listener *)
Definition will_reconnect (c : client) (code : Z) : bool :=
  negb (intentionalClose c) && autoReconnect c && negb (code =? 1000)%Z
  && below (reconnectAttempts c) (maxReconnectAttempts c).

(** the world after [reconnect] *)
Definition rescheduled (w : world) (rnd : math) : world :=
  let n := S (reconnectAttempts (me w)) in
  {| me := set_reconnectAttempts n (me w);
     sockets := sockets w;
     timers := timers w ++ [(next_timer w, ReconnectTimer (backoff (me w) n rnd))];
     next_timer := S (next_timer w) |}.

(** the close was marked intentional *)
Definition marked (w : world) : Prop := intentionalClose (me w) = true.

(** anything but setting a reconnection timer *)
Definition no_reschedule (e : effect) : Prop :=
  match e with
  | SetTimeout _ (ReconnectTimer _) => False
  | _ => True
  end.

(** [m] keeps the invariant [P] and only issues effects in [Q] *)
Definition keeps (P : world -> Prop) (Q : effect -> Prop) {A : Type} (m : M A) : Prop :=
  forall w, P w -> P (m w).1.2 /\ Forall (fun o => Q (what o)) (m w).2.

(** the events handed to the subscribers, in order *)
Definition emitted (l : list observed) : list event :=
  omap (fun o => match what o with Emit e => Some e | _ => None end) l.

(** the delays of the reconnection timers that were set, in order *)
Definition reconnects (l : list observed) : list Double.double :=
  omap (fun o => match what o with
                 | SetTimeout _ (ReconnectTimer d) => Some d
                 | _ => None
                 end) l.

(** the sockets that were opened, in order *)
Definition opened (l : list observed) : list nat :=
  omap (fun o => match what o with NewWebSocket id _ => Some id | _ => None end) l.

(** the marker that a message carries, if it carries one that counts *)
Definition marker (raw : parsed) : option Js.value :=
  match raw with
  | Malformed _ => None
  | Decoded data =>
      match destructure data with
      | Some (_, _, ts) => if Js.truthy ts then Some ts else None
      | None => None
      end
  end.

(** the pending timers that would reconnect *)
Definition is_reconnect (t : timer) : bool :=
  match t with
  | ReconnectTimer _ => true
  | DisconnectTimeout => false
  end.

Definition pending_reconnects (w : world) : list (nat * timer) :=
  filter (fun p => is_reconnect (snd p)) (timers w).

(** *** A client to run examples on *)

(** [1.5^k] rounded to the nearest double: the value of an engine whose
    [Math.pow] is correctly rounded *)
Definition nearest_pow (k : nat) : Double.double :=
  Double.of_dyadic (3 ^ Z.of_nat k) (- Z.of_nat k).

(** the numbers of a call of [reconnect] in which [Math.random()] gives
    [m * 2^e] *)
Definition draw (m e : Z) : math :=
  {| pow := nearest_pow; random := Double.of_dyadic m e |}.

Definition half : math := draw 1 (-1).

Definition sample_options : options :=
  mkOptions None "ws-token" "bot" None None None (Some "marker.json").

Definition idle : world := boot (new_client sample_options).

(** *** Frames and worlds to run examples on *)

Definition frame (op : Z) (d : Js.value) (ts : Z) : Js.value :=
  Js.VObj [("op", Js.VNum op); ("d", d); ("ts", Js.VNum ts)].

Definition vote_frame : Js.value :=
  frame 10 (Js.VObj [("user", Js.VStr "u1")]) 1700000000000.

Definition ready_frame : Js.value :=
  frame 3 (Js.VObj [("name", Js.VStr "bot")]) 7.

(** connected, socket [0] open *)
Definition online : world :=
  (run [CallConnect Js.VUndefined Persist.ReadFails; SocketOpens 0] idle).1.

(** the connection was lost with code 1006 and a reconnection is pending *)
Definition dropped : world :=
  (run [SocketCloses 0 1006 "" half] online).1.



(** a client with [initialDelay: 0], connected with socket [0] open *)
Definition hasty_options : options :=
  mkOptions None "ws-token" "bot" None None
    (Some (mkReconnectOptions (Some Double.zero) None None)) None.

Definition hasty_online : world :=
  (run [CallConnect Js.VUndefined Persist.ReadFails; SocketOpens 0]
       (boot (new_client hasty_options))).1.

(** the connection is lost [k] times in a row: the current socket fails and
    closes with code 1006, the timer fires, and the next socket fails before
    it has opened *)
Definition storm (k : nat) : list input :=
  flat_map (fun i => [SocketErrors i "ECONNREFUSED"; SocketCloses i 1006 "" half;
                      TimerFires i]) (seq 0 k).

(** [connect] was called again while that reconnection was pending: socket
    [1] is open and the timer is still there *)
Definition reopened : world :=
  (run [CallConnect Js.VUndefined Persist.ReadFails; SocketOpens 1] dropped).1.

(** *** More vocabulary for the statements *)

(** the world of the client [c] after [k] connections lost in a row: the
    counter is at [k], socket [k] is the current one and has not closed, and
    no timer is pending *)
Definition lost (c : client) (k : nat) (w : world) : Prop :=
  me w = set_ws (Some k) (set_reconnectAttempts k c) /\
  length (sockets w) = S k /\
  (exists s, sockets w !! k = Some s /\ readyState s <> CLOSED /\
             listening s = true /\ closing s = []) /\
  timers w = [] /\ next_timer w = k.

(** the writes of the marker file, in order: path and content *)
Definition saves (l : list observed) : list (string * Js.value) :=
  omap (fun o => match what o with SaveTimestamp p c => Some (p, c) | _ => None end) l.

(** the handshake headers of the sockets that were opened, in order *)
Definition handshakes (l : list observed) : list (list (string * string)) :=
  omap (fun o => match what o with NewWebSocket _ h => Some h | _ => None end) l.

(** the headers that go with a marker *)
Definition headers_for (c : client) (m : Js.value) : list (string * string) :=
  [("Authorization", wsToken c); ("name", name c)] ++
  (if Js.truthy m then [("lastMessageTimestamp", Js.to_string m)] else []).

(** an input that resets the attempt counter: [connect], or a socket opening *)
Definition resets_attempts (i : input) : bool :=
  match i with
  | CallConnect _ _ | SocketOpens _ => true
  | _ => false
  end.

(** [m] relates the world before, the world after and the log by [R] *)
Definition follows (R : world -> world -> list observed -> Prop) {A : Type} (m : M A) : Prop :=
  forall w, R w (m w).1.2 (m w).2.

(** the budget of reconnections: the limit is left alone, every timer that is
    set counts as one attempt, and the counter stays within a limit [k] *)
Definition within_budget (k : nat) (w w' : world) (l : list observed) : Prop :=
  maxReconnectAttempts (me w') = maxReconnectAttempts (me w) /\
  reconnectAttempts (me w') = (reconnectAttempts (me w) + length (reconnects l))%nat /\
  (maxReconnectAttempts (me w) = Finite (inject_Z (Z.of_nat k)) ->
   (reconnectAttempts (me w) <= k)%nat -> (reconnectAttempts (me w') <= k)%nat).

(** an effect that a transport error may cause *)
Definition error_effect (err : string) (e : effect) : Prop :=
  match e with
  | Emit (EvError x) => x = err
  | Reject x => x = err
  | _ => False
  end.

(** the reconnection fields of the client are those of [c] *)
Definition policy_of (c : client) (w : world) : Prop :=
  reconnectAttempts (me w) = reconnectAttempts c /\
  intentionalClose (me w) = intentionalClose c /\
  lastMessageTimestamp (me w) = lastMessageTimestamp c.

(** a client that gives up after two attempts, connected with socket [0] open *)
Definition capped_options : options :=
  mkOptions None "ws-token" "bot" None None
    (Some (mkReconnectOptions None None (Some (Finite 2)))) None.

Definition capped_online : world :=
  (run [CallConnect Js.VUndefined Persist.ReadFails; SocketOpens 0]
       (boot (new_client capped_options))).1.

(** the connection is lost again and again, and every timer fires *)
Definition flapping : list input :=
  [SocketCloses 0 1006 "" half; TimerFires 0;
   SocketCloses 1 1006 "" (draw 1 (-2)); TimerFires 1;
   SocketCloses 2 1006 "" (draw 3 (-2)); TimerFires 2;
   SocketCloses 3 1006 "" half].

(** the world once [disconnect] has asked socket [id] to close *)
Definition closing_world (w : world) (id : nat) : world :=
  {| me := set_intentionalClose true (me w);
     sockets := alter (set_readyState CLOSING) id
                  (alter (add_closing (next_timer w)) id (sockets w));
     timers := timers w ++ [(next_timer w, DisconnectTimeout)];
     next_timer := S (next_timer w) |}.

(** the world once that close has come in *)
Definition closed_world (w : world) (id : nat) : world :=
  {| me := set_ws None (set_intentionalClose true (me w));
     sockets := alter (fun x => {| readyState := readyState x; handshake := handshake x;
                                   listening := false; closing := [] |}) id
                  (alter (set_readyState CLOSED) id (sockets (closing_world w id)));
     timers := filter (fun p => negb (Nat.eqb (fst p) (next_timer w)))
                 (timers w ++ [(next_timer w, DisconnectTimeout)]);
     next_timer := S (next_timer w) |}.

End Client.

(** * Properties *)

Import Client.

(** * Frame dispatch *)

Section Dispatch.

Variable w : world.

Lemma switch_dispatched op d ts :
  (if Js.is_num op 3 then emit (EvReady d)
   else if Js.is_num op 10 then emit (EvVote (Js.spread_with d "ts" ts))
   else if Js.is_num op 11 then emit (EvTest (Js.spread_with d "ts" ts))
   else if Js.is_num op 12 then emit (EvReminder (Js.spread_with d "ts" ts))
   else emit (EvUnknownOp op d)) = emit (dispatched op d ts).
Proof.
  destruct op as [| |b|n|s|l|p]; try reflexivity.
  unfold Js.is_num, dispatched.
  destruct (Z.eqb_spec n 3) as [->|H3]; [reflexivity|].
  destruct (Z.eqb_spec n 10) as [->|H10]; [reflexivity|].
  destruct (Z.eqb_spec n 11) as [->|H11]; [reflexivity|].
  destruct (Z.eqb_spec n 12) as [->|H12]; [reflexivity|].
  destruct n as [|p|p]; try reflexivity.
  do 4 (destruct p as [p|p|]; try reflexivity; try congruence).
Qed.

Lemma get_set_prop_same k v props :
  Js.lookup_prop k (Js.set_prop k v props) = v.
Proof.
  induction props as [|[k' v'] rest IH]; simpl.
  - rewrite String.eqb_refl. reflexivity.
  - destruct (String.eqb k k') eqn:E; simpl; rewrite ?String.eqb_refl, ?E; auto.
Qed.

Lemma get_set_prop_other k k' v props :
  k' <> k -> Js.lookup_prop k' (Js.set_prop k v props) = Js.lookup_prop k' props.
Proof.
  intros Hne. induction props as [|[k0 v0] rest IH]; simpl.
  - destruct (String.eqb_spec k' k); [contradiction | reflexivity].
  - destruct (String.eqb_spec k k0) as [->|Hk]; simpl.
    + destruct (String.eqb_spec k' k0); [contradiction | reflexivity].
    + destruct (String.eqb k' k0); auto.
Qed.

Lemma handleMessage_decoded data op d ts :
  destructure data = Some (op, d, ts) ->
  handleMessage (Decoded data) w =
  (Normal tt,
   (if Js.truthy ts then with_me (set_lastMessageTimestamp ts) w else w),
   {| what := Emit (dispatched op d ts); seen := me w |} ::
   (if Js.truthy ts then
      match persist_target (me w) with
      | Some path =>
          [{| what := SaveTimestamp path (Persist.saveTimestamp ts);
              seen := set_lastMessageTimestamp ts (me w) |}]
      | None => []
      end
    else [])).
Proof.
  intros H. unfold handleMessage. rewrite H, switch_dispatched.
  unfold bind, emit, issue, assign, update, this, ret. simpl.
  destruct (Js.truthy ts); simpl; [|reflexivity].
  unfold persist_target. simpl.
  destruct (persistPath (me w)) as [p|]; simpl; [|reflexivity].
  destruct (String.eqb p ""); reflexivity.
Qed.

End Dispatch.

(** C1 (as amended).  For every inbound message that decodes to a JSON value
    other than [null], [handleMessage] returns normally and hands the
    subscribers exactly one event, picked by [op]: [3] gives [ready] with the
    payload [d] as it is (the marker is not merged in), [10], [11] and [12]
    give [vote], [test] and [reminder] with a fresh object that has the own
    properties of [d] and the property [ts] set to the frame's marker, and
    everything else gives [unknownOp] with the raw [op] and [d]. *)
Theorem handleMessage_dispatch (w : world) (data : Js.value) :
  Js.nullish data = false ->
  let op := Js.get data "op" in
  let d := Js.get data "d" in
  let ts := Js.get data "ts" in
  let '(r, _, log) := handleMessage (Decoded data) w in
  r = Normal tt /\
  emitted log = [dispatched op d ts] /\
  (op = Js.VNum 3 -> emitted log = [EvReady d]) /\
  (forall payload,
     dispatched op d ts = EvVote payload \/ dispatched op d ts = EvTest payload \/
     dispatched op d ts = EvReminder payload ->
     Js.get payload "ts" = ts /\
     forall k, k <> "ts" -> Js.get payload k = Js.lookup_prop k (Js.own_props d)) /\
  (Js.is_num op 3 || Js.is_num op 10 || Js.is_num op 11 || Js.is_num op 12 = false ->
     emitted log = [EvUnknownOp op d]).
Proof.
  intros Hnn op d ts.
  assert (Hd : destructure data = Some (op, d, ts)).
  { unfold destructure. rewrite Hnn. reflexivity. }
  rewrite (handleMessage_decoded w data op d ts Hd).
  assert (Hlog : forall tail,
    (forall o, o ∈ tail -> match what o with Emit _ => False | _ => True end) ->
    emitted ({| what := Emit (dispatched op d ts); seen := me w |} :: tail)
    = [dispatched op d ts]).
  { intros tail Ht. unfold emitted. simpl. f_equal.
    induction tail as [|o tail IH]; [reflexivity|]. simpl.
    pose proof (Ht o ltac:(left)) as Ho.
    destruct (what o); try contradiction; apply IH; intros; apply Ht; right; done. }
  rewrite Hlog.
  2:{ intros o Ho. destruct (Js.truthy ts); [|inversion Ho].
      destruct (persist_target (me w)); [|inversion Ho].
      apply list_elem_of_singleton in Ho. subst o. exact I. }
  split; [reflexivity|]. split; [reflexivity|].
  split; [intros ->; reflexivity|].
  split.
  - intros payload Hp.
    assert (payload = Js.spread_with d "ts" ts) as ->.
    { unfold dispatched in Hp. destruct op as [| |b|n|s|l|p]; try (destruct Hp as [Hp|[Hp|Hp]]; discriminate).
      destruct n as [|p|p]; try (destruct Hp as [Hp|[Hp|Hp]]; discriminate).
      do 4 (destruct p as [p|p|]; try (destruct Hp as [Hp|[Hp|Hp]]; discriminate));
        destruct Hp as [Hp|[Hp|Hp]]; congruence. }
    split.
    + apply get_set_prop_same.
    + intros k Hk. apply get_set_prop_other. exact Hk.
  - intros Hop. f_equal.
    destruct op as [| |b|n|s|l|p]; try reflexivity.
    unfold Js.is_num in Hop. unfold dispatched.
    destruct (Z.eqb_spec n 3); [discriminate|].
    destruct (Z.eqb_spec n 10); [discriminate|].
    destruct (Z.eqb_spec n 11); [discriminate|].
    destruct (Z.eqb_spec n 12); [discriminate|].
    destruct n as [|p|p]; try reflexivity.
    do 4 (destruct p as [p|p|]; try reflexivity; try congruence).
Qed.

(** C10.  A message that is valid JSON but not a frame is meant to reach the
    [default] branch and go out as [unknownOp], with no [error].  For the
    JSON value [null] the code does not get there: the destructuring
    [const { op, d, ts } = data] throws, so [handleMessage] ends with a
    [TypeError], leaves the client as it was and emits nothing, neither
    [unknownOp] nor [error]; the same happens when the message arrives on an
    open socket. *)
Theorem handleMessage_null_throws (w : world) :
  handleMessage (Decoded Js.VNull) w =
    (Thrown "TypeError: Cannot destructure property 'op' of 'data'", w, []) /\
  emitted (handleMessage (Decoded Js.VNull) w).2 = [] /\
  forall id s,
    sockets w !! id = Some s -> readyState s = OPEN -> listening s = true ->
    step (SocketMessage id (Decoded Js.VNull)) w =
    (Thrown "TypeError: Cannot destructure property 'op' of 'data'", w, []).
Proof.
  split; [reflexivity|]. split; [reflexivity|].
  intros id s Hs Ho Hl. unfold step, bind, state. rewrite Hs, Ho, Hl. reflexivity.
Qed.

Section Marker.

(** what one message does to the world *)
Lemma handleMessage_world raw w :
  (handleMessage raw w).1.2 =
  match marker raw with
  | Some ts => with_me (set_lastMessageTimestamp ts) w
  | None => w
  end.
Proof.
  destruct raw as [err|data]; [reflexivity|].
  unfold marker. destruct (destructure data) as [[[op d] ts]|] eqn:Hd.
  - rewrite (handleMessage_decoded w data op d ts Hd). simpl.
    destruct (Js.truthy ts); reflexivity.
  - unfold handleMessage. rewrite Hd. reflexivity.
Qed.

Lemma handleMessage_saves raw w o path content :
  o ∈ (handleMessage raw w).2 -> what o = SaveTimestamp path content ->
  Js.truthy (lastMessageTimestamp (seen o)) = true /\
  content = Persist.saveTimestamp (lastMessageTimestamp (seen o)) /\
  Some (lastMessageTimestamp (seen o)) = marker raw.
Proof.
  destruct raw as [err|data].
  - simpl. intros Ho Hw. apply list_elem_of_singleton in Ho. subst o. discriminate.
  - unfold marker. destruct (destructure data) as [[[op d] ts]|] eqn:Hd.
    + rewrite (handleMessage_decoded w data op d ts Hd). simpl.
      intros Ho Hw. apply elem_of_cons in Ho as [->|Ho]; [discriminate|].
      destruct (Js.truthy ts) eqn:Ht; [|inversion Ho].
      destruct (persist_target (me w)); [|inversion Ho].
      apply list_elem_of_singleton in Ho. subst o. simpl in *.
      inversion Hw; subst. auto.
    + unfold handleMessage. rewrite Hd. simpl. intros Ho. inversion Ho.
Qed.

Lemma step_message id raw w :
  receiving id w ->
  (step (SocketMessage id raw) w).1.2 = (handleMessage raw w).1.2 /\
  (step (SocketMessage id raw) w).2 = (handleMessage raw w).2.
Proof.
  intros (s & Hs & Ho & Hl). unfold step, bind, state. rewrite Hs, Ho, Hl. simpl.
  destruct (handleMessage raw w) as [[r w1] l1]. auto.
Qed.

Lemma receiving_kept id raw w :
  receiving id w -> receiving id (handleMessage raw w).1.2.
Proof.
  intros H. rewrite handleMessage_world. destruct (marker raw); exact H.
Qed.

Lemma run_cons i rest w :
  run (i :: rest) w =
  ((run rest (step i w).1.2).1, (step i w).2 ++ (run rest (step i w).1.2).2).
Proof.
  simpl. destruct (step i w) as [[r w1] l1]. simpl.
  destruct (run rest w1) as [w2 l2]. reflexivity.
Qed.

Lemma run_messages_stored id frames : forall w,
  receiving id w ->
  stored (run (map (SocketMessage id) frames) w).1 =
  default (stored w) (last (omap marker frames)).
Proof.
  induction frames as [|raw rest IH]; intros w Hw; [reflexivity|].
  cbn [map]. rewrite run_cons. cbn [fst].
  destruct (step_message id raw w Hw) as [Hst _]. rewrite Hst.
  rewrite IH by (apply receiving_kept; exact Hw).
  rewrite handleMessage_world. cbn [omap list_omap].
  destruct (marker raw) as [ts|]; [|reflexivity].
  rewrite last_cons. destruct (last _); reflexivity.
Qed.

Lemma run_messages_saves id frames : forall w o path content,
  receiving id w ->
  o ∈ (run (map (SocketMessage id) frames) w).2 ->
  what o = SaveTimestamp path content ->
  Js.truthy (lastMessageTimestamp (seen o)) = true /\
  content = Persist.saveTimestamp (lastMessageTimestamp (seen o)).
Proof.
  induction frames as [|raw rest IH]; intros w o path content Hw Ho Hwhat.
  - inversion Ho.
  - cbn [map] in Ho. rewrite run_cons in Ho. cbn [snd] in Ho.
    destruct (step_message id raw w Hw) as [Hst Hlog].
    rewrite Hst, Hlog in Ho. apply elem_of_app in Ho as [Ho|Ho].
    + destruct (handleMessage_saves raw w o path content Ho Hwhat) as (? & ? & _). auto.
    + apply (IH (handleMessage raw w).1.2 o path content);
        [apply receiving_kept; exact Hw | exact Ho | exact Hwhat].
Qed.

Lemma sorted_last_above (zs : list Z) z :
  StronglySorted Z.le zs -> z ∈ zs -> exists m, last zs = Some m /\ (z <= m)%Z.
Proof.
  induction 1 as [|a l Hs IH Hall]; intros Hz; [inversion Hz|].
  rewrite last_cons.
  apply elem_of_cons in Hz as [->|Hz].
  - destruct (last l) as [m|] eqn:Hl.
    + exists m. split; [reflexivity|].
      rewrite Forall_forall in Hall. apply Hall. apply last_Some_elem_of, Hl.
    + exists a. split; [reflexivity | lia].
  - destruct (IH Hz) as (m & Hm & Hle). rewrite Hm. eauto.
Qed.

End Marker.

(** C9 (as amended).  While socket [id] is open and listened to, after any
    sequence of inbound frames the marker held in memory is the marker of the
    last frame that carried a truthy one (a plain assignment: the last value
    wins), or the initial marker if no frame carried one.  Hence, if the
    markers of the frames are integers that arrive in non-decreasing order,
    then after every prefix of the sequence the marker in memory is not below
    any marker observed so far.  And every call of [saveTimestamp] is issued
    when the marker in memory already holds the value that is written. *)
Theorem marker_last_wins (w : world) (id : nat) (frames : list parsed) :
  receiving id w ->
  let '(w', log) := run (map (SocketMessage id) frames) w in
  stored w' = default (stored w) (last (omap marker frames)) /\
  (forall zs, omap marker frames = map Js.VNum zs -> StronglySorted Z.le zs ->
     forall pre post z, frames = pre ++ post -> Js.VNum z ∈ omap marker pre ->
       exists m, stored (run (map (SocketMessage id) pre) w).1 = Js.VNum m /\ (z <= m)%Z) /\
  (forall o path content, o ∈ log -> what o = SaveTimestamp path content ->
     Js.truthy (lastMessageTimestamp (seen o)) = true /\
     content = Persist.saveTimestamp (lastMessageTimestamp (seen o))).
Proof.
  intros Hw.
  destruct (run (map (SocketMessage id) frames) w) as [w' log] eqn:Hrun.
  split; [|split].
  - change w' with (w', log).1. rewrite <- Hrun. apply run_messages_stored, Hw.
  - intros zs Hzs Hsorted pre post z -> Hz.
    rewrite run_messages_stored by exact Hw.
    rewrite omap_app in Hzs.
    symmetry in Hzs. apply map_eq_app in Hzs as (zs1 & zs2 & -> & Hpre & _).
    rewrite <- Hpre in Hz |- *.
    apply list_elem_of_fmap in Hz as (z' & Heq & Hz'). inversion Heq; subst z'.
    apply StronglySorted_app_1_l in Hsorted.
    destruct (sorted_last_above zs1 z Hsorted Hz') as (m & Hm & Hle).
    exists m. split; [|exact Hle].
    change (map Js.VNum zs1) with (Js.VNum <$> zs1). rewrite fmap_last, Hm. reflexivity.
  - intros o path content Ho Hwhat.
    eapply run_messages_saves; eauto. rewrite Hrun. exact Ho.
Qed.

Section Closing.

Variable w : world.
Variables (code : Z) (reason : string) (rnd : math).


Lemma on_close_eq :
  on_close code reason rnd w =
  if will_reconnect (me w) code then
    (Normal tt, rescheduled w rnd,
     [{| what := Emit (EvDisconnected code reason); seen := me w |};
      {| what := SetTimeout (next_timer w)
                   (ReconnectTimer (backoff (me w) (S (reconnectAttempts (me w))) rnd));
         seen := set_reconnectAttempts (S (reconnectAttempts (me w))) (me w) |}])
  else (Normal tt, w, [{| what := Emit (EvDisconnected code reason); seen := me w |}]).
Proof.
  unfold on_close, will_reconnect, bind, emit, issue, this. simpl.
  destruct (negb (intentionalClose (me w)) && autoReconnect (me w) && negb (code =? 1000)%Z
            && below (reconnectAttempts (me w)) (maxReconnectAttempts (me w))); reflexivity.
Qed.

End Closing.

Lemma below_Finite n q : below n (Finite q) = true <-> (inject_Z (Z.of_nat n) < q)%Q.
Proof.
  unfold below. rewrite negb_true_iff. split.
  - intros H. apply Qnot_le_lt. intros Hle. apply Qle_bool_iff in Hle. congruence.
  - intros H. destruct (Qle_bool q (inject_Z (Z.of_nat n))) eqn:E; [|reflexivity].
    apply Qle_bool_iff in E. exfalso. eapply Qlt_not_le; eauto.
Qed.

(** C3.  The [close] listener emits [disconnected] and then: for the close
    code 1000 it sets no reconnection timer and leaves the timers and the
    attempt counter as they are, whatever [autoReconnect], the
    intentional-close flag and the counter hold; for any other code it sets
    one reconnection timer when [autoReconnect] is on, the close is not marked
    intentional and the counter is below [maxReconnectAttempts]; and it sets
    a timer in no other case. *)
Theorem close_reconnect_rule (w : world) (code : Z) (reason : string) (rnd : math) :
  let c := me w in
  let '(_, w', log) := on_close code reason rnd w in
  emitted log = [EvDisconnected code reason] /\
  (code = 1000%Z ->
     reconnects log = [] /\ timers w' = timers w /\
     reconnectAttempts (me w') = reconnectAttempts c) /\
  (code <> 1000%Z -> autoReconnect c = true -> intentionalClose c = false ->
   below (reconnectAttempts c) (maxReconnectAttempts c) = true ->
     exists delay, reconnects log = [delay] /\
       timers w' = timers w ++ [(next_timer w, ReconnectTimer delay)]) /\
  (reconnects log <> [] ->
     code <> 1000%Z /\ autoReconnect c = true /\ intentionalClose c = false /\
     below (reconnectAttempts c) (maxReconnectAttempts c) = true).
Proof.
  intros c. rewrite on_close_eq. unfold will_reconnect. fold c.
  destruct (Z.eqb_spec code 1000) as [->|Hcode].
  - rewrite andb_false_r. simpl.
    repeat split; try reflexivity; try congruence; intros; congruence.
  - destruct (intentionalClose c), (autoReconnect c),
      (below (reconnectAttempts c) (maxReconnectAttempts c)); simpl;
      repeat split; try reflexivity; try congruence; intros; try congruence; eauto.
Qed.

(** * Doubles *)

(** The operations of [SpecFloat] work on mantissas and exponents.  This part
    relates them to values: for doubles that are not negative, the order is
    the order of the ranks, and a sum or a product is the exact result
    rounded to the nearest double, ties to even, which is monotone. *)

Section Doubles.

Import Rounding.

Local Open Scope Z_scope.

Section Digits.



End Digits.

Section Shift.







End Shift.

(** rounding to nearest, ties to even, is monotone and exact on multiples *)
Section Nearest.

Variable k : Z.
Hypothesis Hk : 0 <= k.

Lemma pow2_pos : 0 < 2 ^ k.
Proof. apply Z.pow_pos_nonneg; lia. Qed.

Lemma rne_div_between m : m / 2 ^ k <= rne_div m k <= m / 2 ^ k + 1.
Proof.
  unfold rne_div. cbv zeta.
  destruct (2 * (m mod 2 ^ k) ?= 2 ^ k); try destruct (Z.even (m / 2 ^ k)); lia.
Qed.



Lemma rne_div_nonneg m : 0 <= m -> 0 <= rne_div m k.
Proof.
  intros Hm. pose proof (rne_div_between m) as H. pose proof pow2_pos.
  assert (0 <= m / 2 ^ k) by (apply Z.div_pos; lia). lia.
Qed.




End Nearest.

(** the rounding of a value to the double of its binade *)
Section Grid.

Variable g : Z.
Hypothesis Hg : g <= -1074.

Lemma expo_shift N : 0 <= expo g N - g.
Proof. unfold expo. lia. Qed.


Lemma nearest_nonneg N : 0 <= N -> 0 <= nearest g N.
Proof.
  intros HN. unfold nearest. pose proof (expo_shift N).
  apply Z.mul_nonneg_nonneg.
  - apply rne_div_nonneg; lia.
  - apply Z.pow_nonneg. lia.
Qed.






End Grid.

(** doubles and their ranks *)
Section Valid.




Variable g : Z.
Hypothesis Hg : g <= -1074.












End Valid.

(** what [binary_round_aux] and [binary_round] compute *)
Section Round.






Variable g : Z.
Hypothesis Hg : g <= -1074.







End Round.

(** sums, products and minima of doubles that are not negative *)
Section Operations.

Local Abbreviation g0 := (-1074).
Local Abbreviation g1 := (-2148).










End Operations.

(** * The delay of a reconnection *)

Section Backoff.

Local Abbreviation g0 := (-1074).
Local Abbreviation g1 := (-2148).







End Backoff.

End Doubles.

(** * The storm of lost connections *)

Section Storm.

Lemma run_app l1 : forall l2 w,
  run (l1 ++ l2) w =
  ((run l2 (run l1 w).1).1, (run l1 w).2 ++ (run l2 (run l1 w).1).2).
Proof.
  induction l1 as [|i l1 IH]; intros l2 w.
  - simpl. destruct (run l2 w). reflexivity.
  - change ((i :: l1) ++ l2) with (i :: (l1 ++ l2)).
    rewrite !run_cons, IH. cbn [fst snd]. rewrite app_assoc. reflexivity.
Qed.

Lemma storm_S k :
  storm (S k) =
  storm k ++ [SocketErrors k "ECONNREFUSED"; SocketCloses k 1006 "" half; TimerFires k].
Proof.
  unfold storm. rewrite seq_S, flat_map_app. simpl. reflexivity.
Qed.

Variable c : client.
Hypothesis Hflag : intentionalClose c = false.
Hypothesis Hauto : autoReconnect c = true.
Hypothesis Hmax : maxReconnectAttempts c = Infinity.

(** one more connection lost: the close sets a timer with the counter at
    [S k], and the timer opens socket [S k] *)
Lemma lost_step k w rnd :
  lost c k w ->
  reconnects (step (SocketCloses k 1006 "" rnd) w).2 = [backoff c (S k) rnd] /\
  lost c (S k) (run [SocketCloses k 1006 "" rnd; TimerFires k] w).1.
Proof.
  intros (Hme & Hlen & (s & Hs & Hst & Hl & Hc) & Ht & Hn).
  destruct w as [m ss ts nt]. cbn [me sockets timers next_timer] in *. subst m ts nt.
  assert (Hclose : step (SocketCloses k 1006 "" rnd)
            {| me := set_ws (Some k) (set_reconnectAttempts k c); sockets := ss;
               timers := []; next_timer := k |} =
          (Normal tt,
           {| me := set_ws (Some k) (set_reconnectAttempts (S k) c);
              sockets := alter (set_readyState CLOSED) k ss;
              timers := [(k, ReconnectTimer (backoff c (S k) rnd))];
              next_timer := S k |},
           [{| what := Emit (EvDisconnected 1006 "");
               seen := set_ws (Some k) (set_reconnectAttempts k c) |};
            {| what := SetTimeout k (ReconnectTimer (backoff c (S k) rnd));
               seen := set_ws (Some k) (set_reconnectAttempts (S k) c) |}])).
  { unfold step, bind, state, alter_socket, update, with_sockets.
    cbn [sockets me timers next_timer]. rewrite Hs, Hl, Hc.
    destruct (readyState s); try contradiction;
      rewrite on_close_eq; unfold will_reconnect;
      cbn [me intentionalClose autoReconnect maxReconnectAttempts reconnectAttempts
           set_ws set_reconnectAttempts];
      rewrite Hflag, Hauto, Hmax; reflexivity. }
  split; [rewrite Hclose; reflexivity|].
  rewrite run_cons, Hclose. cbn [fst snd].
  rewrite run_cons. cbn [run fst snd].
  unfold step, bind, state. cbn [timers list_find].
  destruct (decide (k = k)) as [_|Hne]; [|contradiction].
  cbn [fmap option_fmap option_map prod_map fst snd].
  unfold lost. cbn.
  rewrite decide_True by reflexivity. cbn.
  rewrite length_alter, Hlen.
  split; [reflexivity|].
  split; [rewrite length_app, length_alter, Hlen; simpl; lia|].
  split; [|split; [|reflexivity]].
  - eexists. split.
    + rewrite lookup_app_r by (rewrite length_alter; lia).
      rewrite length_alter, Hlen, Nat.sub_diag. reflexivity.
    + repeat split. discriminate.
  - rewrite Nat.eqb_refl. reflexivity.
Qed.

(** the error of a socket that fails only reaches the subscribers *)
Lemma lost_error k w err :
  lost c k w -> (step (SocketErrors k err) w).1.2 = w.
Proof.
  intros (_ & _ & (s & Hs & Hst & Hl & Hc) & _).
  unfold step, bind, state. rewrite Hs, Hl, Hc.
  destruct w as [m ss ts nt]. destruct (readyState s); try contradiction; reflexivity.
Qed.

(** the storm of [k] lost connections leaves the counter at [k] *)
Lemma storm_lost w0 k :
  lost c 0 w0 -> lost c k (run (storm k) w0).1.
Proof.
  intros H0. induction k as [|k IH].
  - exact H0.
  - rewrite storm_S, run_app. cbn [fst].
    rewrite run_cons. cbn [fst]. rewrite (lost_error k _ _ IH).
    exact (proj2 (lost_step k _ half IH)).
Qed.

End Storm.


(** * Invariants of the handlers *)

Section Keeps.

Variable P : world -> Prop.
Variable Q : effect -> Prop.

Lemma keeps_ret {A : Type} (a : A) : keeps P Q (ret a).
Proof. intros w Hw. split; [exact Hw | constructor]. Qed.

Lemma keeps_throw {A : Type} e : keeps P Q (@throw A e).
Proof. intros w Hw. split; [exact Hw | constructor]. Qed.

Lemma keeps_this : keeps P Q this.
Proof. intros w Hw. split; [exact Hw | constructor]. Qed.

Lemma keeps_state : keeps P Q state.
Proof. intros w Hw. split; [exact Hw | constructor]. Qed.

Lemma keeps_update f : (forall w, P w -> P (f w)) -> keeps P Q (update f).
Proof. intros Hf w Hw. split; [apply Hf, Hw | constructor]. Qed.

Lemma keeps_issue e : Q e -> keeps P Q (issue e).
Proof. intros He w Hw. split; [exact Hw | repeat constructor; exact He]. Qed.

Lemma keeps_bind {A B : Type} (m : M A) (k : A -> M B) :
  keeps P Q m -> (forall a, keeps P Q (k a)) -> keeps P Q (bind m k).
Proof.
  intros Hm Hk w Hw. unfold bind.
  destruct (Hm w Hw) as [HP HQ].
  destruct (m w) as [[[a|e] w1] l1]; simpl in *.
  - destruct (Hk a w1 HP) as [HP2 HQ2].
    destruct (k a w1) as [[r w2] l2]; simpl in *.
    split; [exact HP2 | apply Forall_app; auto].
  - auto.
Qed.

Lemma keeps_for_each {A : Type} (l : list A) (f : A -> M unit) :
  (forall x, keeps P Q (f x)) -> keeps P Q (for_each l f).
Proof.
  intros Hf. induction l as [|x rest IH]; simpl.
  - apply keeps_ret.
  - apply keeps_bind; [apply Hf | intros _; exact IH].
Qed.

End Keeps.

Section Marked.

Local Abbreviation ok := (keeps marked no_reschedule).

Lemma ok_emit e : ok (emit e).
Proof. apply keeps_issue. exact I. Qed.

Lemma ok_assign f :
  (forall c, intentionalClose (f c) = intentionalClose c) -> ok (assign f).
Proof.
  intros Hf. apply keeps_update. intros w Hw. unfold marked in *. simpl.
  rewrite Hf. exact Hw.
Qed.

Lemma ok_world_update f : (forall w, me (f w) = me w) -> ok (update f).
Proof.
  intros Hf. apply keeps_update. intros w Hw. unfold marked in *.
  rewrite Hf. exact Hw.
Qed.

Lemma ok_handleMessage raw : ok (handleMessage raw).
Proof.
  intros w Hw. destruct raw as [err|data].
  - apply ok_emit, Hw.
  - destruct (destructure data) as [[[op d] ts]|] eqn:Hd.
    + rewrite (handleMessage_decoded w data op d ts Hd). simpl.
      split.
      * destruct (Js.truthy ts); exact Hw.
      * constructor; [exact I|].
        destruct (Js.truthy ts); [|constructor].
        destruct (persist_target (me w)); repeat constructor.
    + unfold handleMessage. rewrite Hd. apply keeps_throw, Hw.
Qed.

Lemma ok_connect_socket : ok _connect.
Proof.
  unfold _connect.
  apply keeps_bind; [apply keeps_this | intros c].
  apply keeps_bind; [apply keeps_state | intros w0].
  apply keeps_bind; [apply keeps_issue; exact I | intros _].
  apply keeps_bind; [apply ok_world_update; reflexivity | intros _].
  apply ok_assign. reflexivity.
Qed.

Lemma ok_clear_timeout id : ok (clear_timeout id).
Proof. apply ok_world_update. reflexivity. Qed.

Lemma ok_alter_socket id f : ok (alter_socket id f).
Proof. apply ok_world_update. reflexivity. Qed.

Lemma ok_set_timeout : ok (set_timeout DisconnectTimeout).
Proof.
  unfold set_timeout.
  apply keeps_bind; [apply keeps_state | intros w0].
  apply keeps_bind; [apply ok_world_update; reflexivity | intros _].
  apply keeps_bind; [apply keeps_issue; exact I | intros _].
  apply keeps_ret.
Qed.

Lemma ok_on_open : ok on_open.
Proof.
  unfold on_open. apply keeps_bind; [apply ok_emit | intros _].
  apply ok_assign. reflexivity.
Qed.

(** under the mark, the [close] listener never reaches [reconnect] *)
Lemma ok_on_close code reason rnd : ok (on_close code reason rnd).
Proof.
  intros w Hw. rewrite on_close_eq. unfold will_reconnect.
  unfold marked in Hw. rewrite Hw. simpl.
  split; [exact Hw | repeat constructor].
Qed.

Lemma ok_closed_after_disconnect t : ok (closed_after_disconnect t).
Proof.
  unfold closed_after_disconnect, removeAllListeners.
  apply keeps_bind; [apply ok_clear_timeout | intros _].
  apply keeps_bind; [apply keeps_this | intros c].
  apply keeps_bind.
  { destruct (ws c); [|apply keeps_ret].
    apply keeps_bind; [apply ok_alter_socket | intros _]. apply keeps_issue. exact I. }
  intros _. apply keeps_bind; [apply ok_assign; reflexivity | intros _].
  apply keeps_issue. exact I.
Qed.

Lemma ok_failed_after_disconnect t err : ok (failed_after_disconnect t err).
Proof.
  unfold failed_after_disconnect, removeAllListeners.
  apply keeps_bind; [apply ok_clear_timeout | intros _].
  apply keeps_bind; [apply keeps_this | intros c].
  apply keeps_bind.
  { destruct (ws c); [apply ok_alter_socket | apply keeps_ret]. }
  intros _. apply keeps_bind; [apply ok_assign; reflexivity | intros _].
  apply keeps_issue. exact I.
Qed.

Lemma ok_disconnect : ok disconnect.
Proof.
  unfold disconnect.
  apply keeps_bind; [apply keeps_this | intros c].
  apply keeps_bind; [apply keeps_state | intros w0].
  assert (Hearly : ok (assign (set_ws None);; issue Resolve)).
  { apply keeps_bind; [apply ok_assign; reflexivity | intros _].
    apply keeps_issue. exact I. }
  destruct (ws c) as [id|]; [|exact Hearly].
  destruct (is_OPEN _); [|exact Hearly].
  apply keeps_bind.
  { apply keeps_update. intros w _. reflexivity. }
  intros _. apply keeps_bind; [apply ok_set_timeout | intros t].
  apply keeps_bind; [apply ok_alter_socket | intros _].
  apply keeps_bind; [apply ok_alter_socket | intros _].
  apply keeps_issue. exact I.
Qed.

Lemma ok_step i : is_CallConnect i = false -> ok (step i).
Proof.
  intros Hi. unfold step.
  apply keeps_bind; [apply keeps_state | intros w0].
  destruct i as [o f| |id|id raw|id code reason rnd|id err|id]; try discriminate.
  - apply ok_disconnect.
  - destruct (sockets w0 !! id) as [s|]; [|apply keeps_ret].
    destruct (readyState s); try apply keeps_ret.
    apply keeps_bind; [apply ok_alter_socket | intros _].
    destruct (listening s); [apply ok_on_open | apply keeps_ret].
  - destruct (sockets w0 !! id) as [s|]; [|apply keeps_ret].
    destruct (is_OPEN (readyState s) && listening s);
      [apply ok_handleMessage | apply keeps_ret].
  - destruct (sockets w0 !! id) as [s|]; [|apply keeps_ret].
    assert (Hgo : ok (alter_socket id (set_readyState CLOSED);;
                      (if listening s then on_close code reason rnd else ret tt);;
                      for_each (closing s) closed_after_disconnect)).
    { apply keeps_bind; [apply ok_alter_socket | intros _].
      apply keeps_bind.
      - destruct (listening s); [apply ok_on_close | apply keeps_ret].
      - intros _. apply keeps_for_each. intros t. apply ok_closed_after_disconnect. }
    destruct (readyState s); first [exact Hgo | apply keeps_ret].
  - destruct (sockets w0 !! id) as [s|]; [|apply keeps_ret].
    assert (Hgo : ok ((if listening s then on_error err else ret tt);;
                      for_each (closing s) (fun t => failed_after_disconnect t err))).
    { apply keeps_bind.
      - destruct (listening s); [apply ok_emit | apply keeps_ret].
      - intros _. apply keeps_for_each. intros t. apply ok_failed_after_disconnect. }
    destruct (readyState s); first [exact Hgo | apply keeps_ret].
  - destruct (list_find _ _) as [[k [k' [delay|]]]|]; [| |apply keeps_ret].
    + apply keeps_bind; [apply ok_clear_timeout | intros _]. apply ok_connect_socket.
    + apply keeps_bind; [apply ok_clear_timeout | intros _]. apply keeps_issue. exact I.
Qed.

Lemma ok_run inputs : forall w,
  forallb (fun i => negb (is_CallConnect i)) inputs = true ->
  marked w ->
  marked (run inputs w).1 /\ Forall (fun o => no_reschedule (what o)) (run inputs w).2.
Proof.
  induction inputs as [|i rest IH]; intros w Hin Hw.
  - split; [exact Hw | constructor].
  - simpl in Hin. apply andb_true_iff in Hin as [Hi Hrest].
    apply negb_true_iff in Hi.
    rewrite run_cons. simpl.
    destruct (ok_step i Hi w Hw) as [HP HQ].
    destruct (IH _ Hrest HP) as [HP2 HQ2].
    split; [exact HP2 | apply Forall_app; auto].
Qed.

Lemma no_reschedule_reconnects log :
  Forall (fun o => no_reschedule (what o)) log -> reconnects log = [].
Proof.
  induction 1 as [|o l Ho Hl IH]; [reflexivity|].
  assert (Hc : reconnects (o :: l) =
               match what o with
               | SetTimeout _ (ReconnectTimer d) => d :: reconnects l
               | _ => reconnects l
               end).
  { unfold reconnects. simpl. destruct (what o) as [| | |? [?|]| | | |]; reflexivity. }
  rewrite Hc, IH.
  destruct (what o) as [| | |? [?|]| | | |]; try reflexivity. contradiction.
Qed.

End Marked.

Lemma disconnect_keeps_reconnect_timers w :
  pending_reconnects (disconnect w).1.2 = pending_reconnects w.
Proof.
  unfold disconnect, bind, this, state. simpl.
  destruct (ws (me w)) as [id|]; [|reflexivity].
  destruct (is_OPEN _); [|reflexivity].
  simpl. unfold pending_reconnects. simpl.
  rewrite filter_app. simpl. rewrite filter_cons_False by (simpl; auto).
  rewrite filter_nil. apply app_nil_r.
Qed.

(** The part of the mechanism that works: when [disconnect] is called while
    the current socket is open, it marks the close as intentional, and from
    then on, through any events other than a step of [connect], whatever the
    close codes, the mark stays and no reconnection timer is set. *)
Lemma mark_stops_rescheduling (w : world) (id : nat) :
  ws (me w) = Some id -> socket_state w id = Some OPEN ->
  let '(_, w1, log1) := disconnect w in
  intentionalClose (me w1) = true /\
  pending_reconnects w1 = pending_reconnects w /\
  reconnects log1 = [] /\
  forall inputs,
    forallb (fun i => negb (is_CallConnect i)) inputs = true ->
    let '(w2, log2) := run inputs w1 in
    intentionalClose (me w2) = true /\ reconnects log2 = [].
Proof.
  intros Hws Hopen.
  pose proof (disconnect_keeps_reconnect_timers w) as Hpend.
  assert (Hmark : marked (disconnect w).1.2 /\ reconnects (disconnect w).2 = []).
  { unfold disconnect, bind, this, state. simpl. rewrite Hws, Hopen. simpl. split; reflexivity. }
  destruct (disconnect w) as [[r w1] log1]. simpl in *.
  destruct Hmark as [Hmark Hlog].
  repeat split; try assumption.
  intros inputs Hin.
  destruct (ok_run inputs w1 Hin Hmark) as [HP HQ].
  destruct (run inputs w1) as [w2 log2]. simpl in *.
  split; [exact HP | apply no_reschedule_reconnects, HQ].
Qed.

(** what a reconnection timer does when it fires *)
Lemma timer_fires_eq w t i delay :
  list_find (fun p => fst p = t) (timers w) = Some (i, (t, ReconnectTimer delay)) ->
  let id := length (sockets w) in
  let h := headers_for (me w) (lastMessageTimestamp (me w)) in
  step (TimerFires t) w =
  (Normal tt,
   {| me := set_ws (Some id) (me w);
      sockets := sockets w ++
        [{| readyState := CONNECTING; handshake := h; listening := true; closing := [] |}];
      timers := filter (fun p => negb (Nat.eqb (fst p) t)) (timers w);
      next_timer := next_timer w |},
   [{| what := NewWebSocket id h; seen := me w |}]).
Proof.
  intros H. unfold step, bind, state. rewrite H. reflexivity.
Qed.

Lemma disconnect_cases w :
  (exists id, ws (me w) = Some id /\ socket_state w id = Some OPEN /\
     disconnect w =
     (Normal tt, closing_world w id,
      [{| what := SetTimeout (next_timer w) DisconnectTimeout;
          seen := set_intentionalClose true (me w) |};
       {| what := CloseSocket id 1000 "Client disconnect";
          seen := set_intentionalClose true (me w) |}])) \/
  ((forall id, ws (me w) = Some id -> socket_state w id <> Some OPEN) /\
     disconnect w =
     (Normal tt,
      {| me := set_ws None (me w); sockets := sockets w; timers := timers w;
         next_timer := next_timer w |},
      [{| what := Resolve; seen := set_ws None (me w) |}])).
Proof.
  unfold disconnect, bind, this, state. cbn [fst snd].
  destruct (ws (me w)) as [id|] eqn:Hws.
  - destruct (socket_state w id) as [[| | |]|] eqn:Hst; cbn [default is_OPEN];
      try (right; split; [intros id' Hid; inversion Hid; subst id'; rewrite Hst; discriminate
                         | reflexivity]).
    left. exists id. split; [reflexivity|]. split; [exact Hst | reflexivity].
  - right. split; [intros id' Hid; discriminate | reflexivity].
Qed.

(** C2.  [disconnect] neutralizes no reconnection timer.  A reconnection
    timer that is pending when [disconnect] is called is pending afterwards,
    whether the current socket is open or not, and when it fires the client
    opens a new connection, which becomes the current one.  Called while the
    current socket is open, [disconnect] marks the close as intentional and
    asks the socket to close; called while it is not open, which is the
    state in which the client waits to reconnect, it resolves at once,
    leaves the mark as it was and changes no timer. *)
Theorem pending_reconnect_survives_disconnect (w : world) (t i : nat) (delay : Double.double) :
  list_find (fun p => fst p = t) (timers w) = Some (i, (t, ReconnectTimer delay)) ->
  let '(r, w1, log1) := disconnect w in
  r = Normal tt /\
  list_find (fun p => fst p = t) (timers w1) = Some (i, (t, ReconnectTimer delay)) /\
  opened log1 = [] /\
  (forall id, ws (me w) = Some id -> socket_state w id = Some OPEN ->
     intentionalClose (me w1) = true /\
     map what log1 = [SetTimeout (next_timer w) DisconnectTimeout;
                      CloseSocket id 1000 "Client disconnect"]) /\
  ((forall id, ws (me w) = Some id -> socket_state w id <> Some OPEN) ->
     map what log1 = [Resolve] /\
     intentionalClose (me w1) = intentionalClose (me w) /\
     timers w1 = timers w) /\
  let '(r2, w2, log2) := step (TimerFires t) w1 in
  r2 = Normal tt /\
  opened log2 = [length (sockets w)] /\
  ws (me w2) = Some (length (sockets w)) /\
  socket_state w2 (length (sockets w)) = Some CONNECTING.
Proof.
  intros Hfind.
  destruct (disconnect_cases w) as [(id & Hws & Hst & ->)|(Hnot & ->)].
  - assert (Hfind1 : list_find (fun p => fst p = t) (timers (closing_world w id)) =
                     Some (i, (t, ReconnectTimer delay)))
      by (apply list_find_app_l, Hfind).
    assert (Hlen : length (sockets (closing_world w id)) = length (sockets w))
      by (unfold closing_world; cbn [sockets]; rewrite !length_alter; reflexivity).
    split; [reflexivity|]. split; [exact Hfind1|]. split; [reflexivity|].
    split; [|split].
    + intros id' Hid _. split; [reflexivity|].
      rewrite Hws in Hid. inversion Hid. reflexivity.
    + intros Hno. destruct (Hno id Hws Hst).
    + rewrite (timer_fires_eq (closing_world w id) t i delay Hfind1). cbv zeta. rewrite Hlen.
      split; [reflexivity|]. split; [reflexivity|]. split; [reflexivity|].
      unfold socket_state, closing_world. cbn [sockets].
      rewrite lookup_app_r by (rewrite !length_alter; lia).
      rewrite !length_alter, Nat.sub_diag. reflexivity.
  - split; [reflexivity|]. split; [exact Hfind|]. split; [reflexivity|].
    split; [|split].
    + intros id Hws Hst. destruct (Hnot id Hws Hst).
    + intros _. repeat split; reflexivity.
    + rewrite (timer_fires_eq
                 {| me := set_ws None (me w); sockets := sockets w; timers := timers w;
                    next_timer := next_timer w |} t i delay Hfind).
      cbv zeta. cbn [sockets].
      split; [reflexivity|]. split; [reflexivity|]. split; [reflexivity|].
      unfold socket_state. cbn [sockets].
      rewrite lookup_app_r by lia. rewrite Nat.sub_diag. reflexivity.
Qed.

(** * Strings *)

Section Strings.

Lemma prefix_append n s : String.prefix n (n +:+ s) = true.
Proof.
  induction n as [|c n IH]; simpl; [destruct s; reflexivity|].
  destruct (Ascii.ascii_dec c c); [exact IH | contradiction].
Qed.

Lemma includes_prefix n s : String.prefix n s = true -> Js.includes n s = true.
Proof. intros H. destruct s; cbn [Js.includes]; rewrite H; reflexivity. Qed.

Lemma includes_here n s : Js.includes n (n +:+ s) = true.
Proof. apply includes_prefix, prefix_append. Qed.

Lemma includes_append n a s : Js.includes n s = true -> Js.includes n (a +:+ s) = true.
Proof.
  intros H. induction a as [|c a IH]; simpl; [exact H|].
  rewrite IH. apply orb_true_r.
Qed.

Lemma ends_with_append suffix a : Js.ends_with suffix (a +:+ suffix) = true.
Proof.
  induction a as [|c a IH]; simpl.
  - destruct suffix; simpl; rewrite ?String.eqb_refl, ?Ascii.eqb_refl; reflexivity.
  - rewrite IH. apply orb_true_r.
Qed.

Lemma span_segment id rest :
  Js.no_slash id = true ->
  Js.span_no_slash (id +:+ String "/" rest) = (id, String "/" rest).
Proof.
  induction id as [|c id IH]; simpl; intros H; [reflexivity|].
  apply andb_true_iff in H as [Hc Hid]. apply negb_true_iff in Hc.
  rewrite Hc, (IH Hid). reflexivity.
Qed.

End Strings.

(** * The Top.gg wrapper *)

Section TopGGFacts.

Import TopGG.

Section Fetch.

Variables (st : TopGG.t) (path : string) (m : verb) (b : Js.value).
Variables (query : option (list (string * scalar))) (e : env).

Lemma fetch_no_token :
  has_token st = false ->
  _fetch st path m b query e = (Err no_token_message, st, []).
Proof. intros H. unfold _fetch. rewrite H. reflexivity. Qed.

Lemma fetch_limited :
  has_token st = true -> limited st (now e) = true ->
  _fetch st path m b query e = (Err (limited_message st), st, []).
Proof. intros Ht Hl. unfold _fetch. rewrite Ht, Hl. reflexivity. Qed.

Lemma fetch_sends :
  has_token st = true -> limited st (now e) = false ->
  _fetch st path m b query e =
  match Fetcher.safeFetchJSON (build_url path query) (reply e) with
  | Err msg =>
      if Js.includes "429" msg
      then (Err "Rate limit exceeded, retry later",
            with_rateLimitReset (later e + 60 * 1000) st, [request_of st path m b query])
      else (Err msg, st, [request_of st path m b query])
  | Ok v => (Ok v, st, [request_of st path m b query])
  end.
Proof. intros Ht Hl. unfold _fetch. rewrite Ht, Hl. reflexivity. Qed.

(** a request goes out exactly when there is a token and no cooldown *)
Lemma fetch_requests :
  (_fetch st path m b query e).2 =
  if has_token st && negb (limited st (now e)) then [request_of st path m b query] else [].
Proof.
  destruct (has_token st) eqn:Ht; [|rewrite fetch_no_token by exact Ht; reflexivity].
  destruct (limited st (now e)) eqn:Hl; [rewrite fetch_limited by assumption; reflexivity|].
  rewrite fetch_sends by assumption. simpl.
  destruct (Fetcher.safeFetchJSON _ _) as [v|msg]; [reflexivity|].
  destruct (Js.includes "429" msg); reflexivity.
Qed.

(** [_fetch] never touches the cache, the token or the TTL *)
Lemma fetch_frame :
  let st' := (_fetch st path m b query e).1.2 in
  cache st' = cache st /\ token st' = token st /\ cacheTTL st' = cacheTTL st.
Proof.
  destruct (has_token st) eqn:Ht; [|rewrite fetch_no_token by exact Ht; auto].
  destruct (limited st (now e)) eqn:Hl; [rewrite fetch_limited by assumption; auto|].
  rewrite fetch_sends by assumption.
  destruct (Fetcher.safeFetchJSON _ _) as [v|msg]; [auto|].
  destruct (Js.includes "429" msg); auto.
Qed.

(** a success means: token, no cooldown, a request, and an untouched state *)
Lemma fetch_ok v st' reqs :
  _fetch st path m b query e = (Ok v, st', reqs) ->
  has_token st = true /\ limited st (now e) = false /\ st' = st /\
  reqs = [request_of st path m b query] /\
  Fetcher.safeFetchJSON (build_url path query) (reply e) = Ok v.
Proof.
  destruct (has_token st) eqn:Ht; [|rewrite fetch_no_token by exact Ht; discriminate].
  destruct (limited st (now e)) eqn:Hl; [rewrite fetch_limited by assumption; discriminate|].
  rewrite fetch_sends by assumption.
  destruct (Fetcher.safeFetchJSON _ _) as [v'|msg].
  - intros H. inversion H; subst. auto.
  - destruct (Js.includes "429" msg); discriminate.
Qed.

End Fetch.

Lemma status_429_message u r :
  Fetcher.status r = 429 ->
  exists msg, Fetcher.safeFetchJSON u (Fetcher.Responded r) = Err msg /\
              Js.includes "429" msg = true.
Proof.
  intros Hs. unfold Fetcher.safeFetchJSON, Fetcher.ok. rewrite Hs. simpl.
  eexists. split; [reflexivity|].
  apply (includes_append "429" "Failed to fetch '").
  apply includes_append. apply (includes_append "429" "' with code ").
  apply (includes_here "429").
Qed.

Lemma limited_later st t t' :
  limited st t = false -> (t <= t')%Z -> limited st t' = false.
Proof.
  unfold limited. destruct (rateLimitReset st) as [r|]; [|reflexivity].
  destruct (r =? 0)%Z; simpl; [reflexivity|].
  intros H Hle. apply Z.ltb_ge in H. apply Z.ltb_ge. lia.
Qed.

Lemma limited_inside st R t :
  rateLimitReset st = Some R -> R <> 0%Z -> (t < R)%Z -> limited st t = true.
Proof.
  intros HR Hnz Hlt. unfold limited. rewrite HR.
  apply Z.eqb_neq in Hnz. rewrite Hnz. simpl. apply Z.ltb_lt. exact Hlt.
Qed.

Lemma limited_outside st R t :
  rateLimitReset st = Some R -> (R <= t)%Z -> limited st t = false.
Proof.
  intros HR Hle. unfold limited. rewrite HR.
  destruct (R =? 0)%Z; simpl; [reflexivity|]. apply Z.ltb_ge. exact Hle.
Qed.

Section Cached.

Variables (st : TopGG.t) (path : string) (b : Js.value).
Variables (query : option (list (string * scalar))) (e : env).

Lemma cached_get :
  _fetchWithCache st path GET b query e =
  match live (cache st) (getCacheKey path query) (now e) with
  | Some x => (Ok (data x), st, [])
  | None =>
      let '(result, st1, reqs) := _fetch st path GET b query e in
      match result with
      | Ok v =>
          (result,
           with_cache (<[getCacheKey path query :=
                         {| data := v; expiry := (later e + cacheTTL st1)%Z |}]> (cache st1)) st1,
           reqs)
      | Err _ => (result, st1, reqs)
      end
  end.
Proof.
  unfold _fetchWithCache, live. simpl.
  destruct (cache st !! getCacheKey path query) as [x|]; [|reflexivity].
  destruct (now e <? expiry x)%Z; reflexivity.
Qed.

Lemma cached_get_requests :
  (_fetchWithCache st path GET b query e).2 =
  match live (cache st) (getCacheKey path query) (now e) with
  | Some _ => []
  | None => (_fetch st path GET b query e).2
  end.
Proof.
  rewrite cached_get. destruct (live _ _ _); [reflexivity|].
  destruct (_fetch st path GET b query e) as [[[v|msg] st1] reqs]; reflexivity.
Qed.

Lemma cached_mutation_requests m :
  is_GET m = false ->
  (_fetchWithCache st path m b query e).2 = (_fetch st path m b query e).2.
Proof.
  intros Hm. unfold _fetchWithCache. rewrite Hm. simpl.
  destruct (_fetch st path m b query e) as [[r st1] reqs]. simpl.
  destruct (isOk r && is_POST m && Js.ends_with "/stats" path); [|reflexivity].
  destruct (Js.match_group _ _ _); reflexivity.
Qed.

End Cached.

Lemma run_plan st c e :
  (run st c e).1.2 = (fetched_by st c e).1.2 /\
  (run st c e).2 = (fetched_by st c e).2 /\
  (forall msg, (fetched_by st c e).1.1 = Err msg -> (run st c e).1.1 = Normal (Err msg)).
Proof.
  unfold fetched_by.
  destruct c; simpl;
    try (destruct (_fetchWithCache _ _ _ _ _ _) as [[r st1] reqs]; simpl;
         repeat split; intros; subst; reflexivity).
  destruct (_fetchWithCache _ _ _ _ _ _) as [[[v|msg] st1] reqs]; simpl.
  - destruct (Js.nullish v); simpl; repeat split; intros; discriminate.
  - repeat split; intros ? H; inversion H; reflexivity.
Qed.

Section NoToken.

Lemma cached_no_token st path m b query e :
  has_token st = false -> cache st = ∅ ->
  _fetchWithCache st path m b query e = (Err no_token_message, st, []).
Proof.
  intros Ht Hc. unfold _fetchWithCache.
  rewrite (fetch_no_token st path m b query e Ht), Hc, lookup_empty.
  destruct (is_GET m); reflexivity.
Qed.

Lemma run_no_token st c e :
  has_token st = false -> cache st = ∅ ->
  run st c e = (Normal (Err no_token_message), st, []).
Proof.
  intros Ht Hc. destruct c; simpl; rewrite cached_no_token by assumption; reflexivity.
Qed.

Lemma exec_no_token ops : forall st,
  has_token st = false -> cache st = ∅ ->
  let '(results, reqs, st') := exec ops st in
  results = replicate (length (filter is_call ops)) (Normal (Err no_token_message)) /\
  reqs = [] /\ has_token st' = false /\ cache st' = ∅.
Proof.
  induction ops as [|o rest IH]; intros st Ht Hc; [simpl; auto|].
  destruct o as [c e|path query|]; cbn [exec].
  - rewrite run_no_token by assumption.
    specialize (IH st Ht Hc). destruct (exec rest st) as [[rs reqs] st2].
    destruct IH as (-> & -> & ? & ?). rewrite filter_cons_True by exact I. auto.
  - rewrite filter_cons_False by (simpl; auto).
    apply IH; [exact Ht|]. simpl. rewrite Hc. apply delete_empty.
  - rewrite filter_cons_False by (simpl; auto).
    apply IH; [exact Ht | reflexivity].
Qed.

End NoToken.

(** C5.  A [TopGGAPI] built without a usable token answers every call of
    every method ([postStats], [getBots], [getBot], [getVotes], [hasVoted],
    [getStats]), at any point of any sequence of calls, invalidations and
    clears, with the failure [Top.gg token not provided], and sends no
    request. *)
Theorem no_token_no_network (options : option (string * option Z)) (ops : list op) :
  has_token (TopGG.new options) = false ->
  let '(results, reqs, _) := exec ops (TopGG.new options) in
  length results = length (filter is_call ops) /\
  Forall (fun r => r = Normal (Err "Top.gg token not provided")) results /\
  reqs = [].
Proof.
  intros Ht.
  pose proof (exec_no_token ops (TopGG.new options) Ht eq_refl) as H.
  destruct (exec ops (TopGG.new options)) as [[results reqs] st'].
  destruct H as (-> & -> & _).
  split; [apply length_replicate|]. split; [|reflexivity].
  apply Forall_replicate. reflexivity.
Qed.

Section Cooldown.

Variables (st : TopGG.t) (R : Z).
Hypothesis Htoken : has_token st = true.
Hypothesis Hreset : rateLimitReset st = Some R.

Lemma cached_limited path m b query e :
  R <> 0%Z -> (now e < R)%Z ->
  _fetchWithCache st path m b query e =
  match served st path m query (now e) with
  | Some x => (Ok (data x), st, [])
  | None => (Err (limited_message st), st, [])
  end.
Proof.
  intros Hnz Hlt.
  pose proof (limited_inside st R (now e) Hreset Hnz Hlt) as Hl.
  unfold served. destruct m; simpl.
  - rewrite cached_get. destruct (live _ _ _); [reflexivity|].
    rewrite fetch_limited by assumption. reflexivity.
  - unfold _fetchWithCache. simpl. rewrite fetch_limited by assumption. reflexivity.
  - unfold _fetchWithCache. simpl. rewrite fetch_limited by assumption. reflexivity.
Qed.

Lemma run_limited c e :
  R <> 0%Z -> (now e < R)%Z -> (run st c e).1.2 = st /\ (run st c e).2 = [].
Proof.
  intros Hnz Hlt. destruct (run_plan st c e) as (-> & -> & _).
  unfold fetched_by. destruct (plan c) as [[[path m] b] query].
  rewrite cached_limited by assumption.
  destruct (served st path m query (now e)); auto.
Qed.

Lemma cached_resumes path m b query e :
  (R <= now e)%Z -> served st path m query (now e) = None ->
  (_fetchWithCache st path m b query e).2 = [request_of st path m b query].
Proof.
  intros Hle Hs.
  pose proof (limited_outside st R (now e) Hreset Hle) as Hl.
  assert (Hf : (_fetch st path m b query e).2 = [request_of st path m b query]).
  { rewrite fetch_requests, Htoken, Hl. reflexivity. }
  unfold served in Hs. destruct m; simpl in Hs.
  - rewrite cached_get_requests, Hs. exact Hf.
  - rewrite cached_mutation_requests by reflexivity. exact Hf.
  - rewrite cached_mutation_requests by reflexivity. exact Hf.
Qed.

End Cooldown.

Lemma exec_limited R ops : forall st,
  has_token st = true -> rateLimitReset st = Some R -> R <> 0%Z ->
  Forall (in_window R) ops ->
  let '(_, reqs, st') := exec ops st in
  reqs = [] /\ has_token st' = true /\ rateLimitReset st' = Some R.
Proof.
  induction ops as [|o rest IH]; intros st Ht HR Hnz Hin; [simpl; auto|].
  inversion Hin as [|? ? Ho Hrest]; subst.
  destruct o as [c e|path query|]; cbn [exec].
  - destruct (run_limited st R Ht HR c e Hnz Ho) as [Hst Hreqs].
    destruct (run st c e) as [[r st1] reqs1]. simpl in Hst, Hreqs. subst.
    specialize (IH st Ht HR Hnz Hrest). destruct (exec rest st) as [[rs reqs] st2].
    exact IH.
  - apply IH; assumption.
  - apply IH; assumption.
Qed.

(** C6 (as amended).  For the Top.gg wrapper with a token: a reply with
    status 429 to a request makes [_fetch] fail with
    [Rate limit exceeded, retry later] and sets [rateLimitReset] to the time
    of the reply plus 60000 ms.  While [rateLimitReset] is [R], every
    sequence of operations whose calls are issued before [R] sends no request
    and leaves [R] in place; such a call fails with [Rate limited until ...],
    except a [GET] whose cache entry is still live, which succeeds with the
    cached value.  From [R] on, a call that is not answered from the cache
    sends its request. *)
Theorem cooldown_blocks_network :
  (forall st path m b query e r,
     has_token st = true -> limited st (now e) = false ->
     reply e = Fetcher.Responded r -> Fetcher.status r = 429 ->
     _fetch st path m b query e =
     (Err "Rate limit exceeded, retry later",
      with_rateLimitReset (later e + 60000) st, [request_of st path m b query])) /\
  (forall st R,
     has_token st = true -> rateLimitReset st = Some R -> R <> 0%Z ->
     (forall ops, Forall (in_window R) ops ->
        let '(_, reqs, st') := exec ops st in
        reqs = [] /\ rateLimitReset st' = Some R) /\
     (forall path m b query e, (now e < R)%Z ->
        _fetchWithCache st path m b query e =
        match served st path m query (now e) with
        | Some x => (Ok (data x), st, [])
        | None =>
            (Err ("Rate limited until " +:+ JsDate.toISOString R), st, [])
        end) /\
     (forall path m b query e, (R <= now e)%Z ->
        served st path m query (now e) = None ->
        (_fetchWithCache st path m b query e).2 = [request_of st path m b query])).
Proof.
  split.
  - intros st path m b query e r Ht Hl Hr Hs.
    rewrite fetch_sends by assumption. rewrite Hr.
    destruct (status_429_message (build_url path query) r Hs) as (msg & -> & ->).
    reflexivity.
  - intros st R Ht HR Hnz. split; [|split].
    + intros ops Hin. pose proof (exec_limited R ops st Ht HR Hnz Hin) as H.
      destruct (exec ops st) as [[rs reqs] st']. tauto.
    + intros path m b query e Hlt.
      rewrite (cached_limited st R Ht HR path m b query e Hnz Hlt).
      unfold limited_message. rewrite HR. reflexivity.
    + intros path m b query e Hle Hs. eapply cached_resumes; eauto.
Qed.

End TopGGFacts.

Local Open Scope Z_scope.

(** * The cache of the Top.gg wrapper *)

Section TopGGCache.

Import TopGG.

Lemma live_insert c key v x t0 :
  live (<[key := {| data := v; expiry := x |}]> c) key t0 =
  if t0 <? x then Some {| data := v; expiry := x |} else None.
Proof. unfold live. rewrite lookup_insert_eq. reflexivity. Qed.

(** a [GET] that went to the network and came back with [v] has stored [v] *)
Lemma cached_get_stored st path b query e v st1 req :
  _fetchWithCache st path GET b query e = (Ok v, st1, [req]) ->
  has_token st = true /\
  st1 = with_cache (<[getCacheKey path query :=
                      {| data := v; expiry := later e + cacheTTL st |}]> (cache st)) st.
Proof.
  rewrite cached_get. destruct (live _ _ _); [discriminate|].
  destruct (_fetch st path GET b query e) as [[[v'|msg] st'] reqs] eqn:Hf; [|discriminate].
  apply fetch_ok in Hf as (Ht & _ & -> & _ & _).
  intros H. inversion H; subst. auto.
Qed.

Lemma topgg_round_trip st path b query e v st1 req :
  _fetchWithCache st path GET b query e = (Ok v, st1, [req]) ->
  cache st1 !! getCacheKey path query =
    Some {| data := v; expiry := later e + cacheTTL st |} /\
  forall b' e',
    (now e' < later e + cacheTTL st ->
       _fetchWithCache st1 path GET b' query e' = (Ok v, st1, [])) /\
    (later e + cacheTTL st <= now e' ->
       (_fetchWithCache st1 path GET b' query e').2 =
       if limited st1 (now e') then [] else [request_of st1 path GET b' query]).
Proof.
  intros H. apply cached_get_stored in H as [Ht ->]. simpl.
  split; [apply lookup_insert_eq|].
  intros b' e'. split.
  - intros Hlt. rewrite cached_get. simpl. rewrite live_insert.
    apply Z.ltb_lt in Hlt. rewrite Hlt. reflexivity.
  - intros Hle. rewrite cached_get_requests. simpl. rewrite live_insert.
    apply Z.ltb_ge in Hle. rewrite Hle.
    rewrite fetch_requests.
    change (has_token (with_cache _ st)) with (has_token st). rewrite Ht. simpl.
    destruct (limited _ _); reflexivity.
Qed.

End TopGGCache.

(** * The cache of the websocket wrapper *)

Section AriwaCache.

Import AriwaAPI.

Lemma ariwa_get st path b e :
  _fetchWithCache st path GET b e =
  match live (cache st) path (now e) with
  | Some x => (Ok (data x), st, [])
  | None =>
      match Fetcher.safeFetchJSON (BASE_URL +:+ path) (reply e) with
      | Ok v =>
          (Ok v,
           with_cache (<[path := {| data := v; expiry := later e + cacheTTL st |}]> (cache st)) st,
           [AriwaAPI.request_of st path GET b])
      | Err msg => (Err msg, st, [AriwaAPI.request_of st path GET b])
      end
  end.
Proof.
  unfold _fetchWithCache, _fetch, live, getCacheKey. simpl.
  destruct (cache st !! path) as [x|].
  - destruct (now e <? expiry x); [reflexivity|].
    destruct (Fetcher.safeFetchJSON _ _); reflexivity.
  - destruct (Fetcher.safeFetchJSON _ _); reflexivity.
Qed.

Lemma ariwa_round_trip st path b e v st1 req :
  _fetchWithCache st path GET b e = (Ok v, st1, [req]) ->
  cache st1 !! path = Some {| data := v; expiry := later e + cacheTTL st |} /\
  forall b' e',
    (now e' < later e + cacheTTL st ->
       _fetchWithCache st1 path GET b' e' = (Ok v, st1, [])) /\
    (later e + cacheTTL st <= now e' ->
       (_fetchWithCache st1 path GET b' e').2 = [AriwaAPI.request_of st1 path GET b']).
Proof.
  rewrite ariwa_get. destruct (live _ _ _); [discriminate|].
  destruct (Fetcher.safeFetchJSON _ _) as [v'|msg]; [|discriminate].
  intros H. inversion H; subst. simpl.
  split; [apply lookup_insert_eq|].
  intros b' e'. split.
  - intros Hlt. rewrite ariwa_get. simpl. rewrite live_insert.
    apply Z.ltb_lt in Hlt. rewrite Hlt. reflexivity.
  - intros Hle. rewrite ariwa_get. simpl. rewrite live_insert.
    apply Z.ltb_ge in Hle. rewrite Hle.
    destruct (Fetcher.safeFetchJSON _ _); reflexivity.
Qed.

End AriwaCache.

(** C7 (as amended).  For both wrappers: a [GET] that went to the network
    at time [t] and succeeded with [v] stores [v] under its key with expiry
    [t + cacheTTL]; every later [GET] of that key at a time before the expiry
    returns [v], sends nothing and leaves the wrapper as it is; a [GET] at or
    after the expiry goes past the entry: the websocket wrapper then sends a
    fresh request, and the Top.gg wrapper sends one unless it is inside a
    rate-limit cooldown, in which case it sends nothing. *)
Theorem cache_round_trip :
  (forall st path b query e v st1 req,
     TopGG._fetchWithCache st path GET b query e = (Ok v, st1, [req]) ->
     TopGG.cache st1 !! TopGG.getCacheKey path query =
       Some {| data := v; expiry := later e + TopGG.cacheTTL st |} /\
     forall b' e',
       (now e' < later e + TopGG.cacheTTL st ->
          TopGG._fetchWithCache st1 path GET b' query e' = (Ok v, st1, [])) /\
       (later e + TopGG.cacheTTL st <= now e' ->
          (TopGG._fetchWithCache st1 path GET b' query e').2 =
          if TopGG.limited st1 (now e') then []
          else [TopGG.request_of st1 path GET b' query])) /\
  (forall st path b e v st1 req,
     AriwaAPI._fetchWithCache st path GET b e = (Ok v, st1, [req]) ->
     AriwaAPI.cache st1 !! path =
       Some {| data := v; expiry := later e + AriwaAPI.cacheTTL st |} /\
     forall b' e',
       (now e' < later e + AriwaAPI.cacheTTL st ->
          AriwaAPI._fetchWithCache st1 path GET b' e' = (Ok v, st1, [])) /\
       (later e + AriwaAPI.cacheTTL st <= now e' ->
          (AriwaAPI._fetchWithCache st1 path GET b' e').2 =
          [AriwaAPI.request_of st1 path GET b'])).
Proof.
  split.
  - intros. eapply topgg_round_trip; eauto.
  - intros. eapply ariwa_round_trip; eauto.
Qed.

(** * Invalidation after a write *)

Section Paths.

Variable id : string.
Hypothesis Hid : Js.segment id = true.

Lemma segment_parts : id <> "" /\ Js.no_slash id = true.
Proof.
  unfold Js.segment in Hid. apply andb_true_iff in Hid as [Hne Hns].
  split; [|exact Hns]. intros ->. discriminate.
Qed.

Lemma match_group_here pre post s r :
  Js.match_here pre post s = Some r -> Js.match_group pre post s = Some r.
Proof. intros H. destruct s; cbn [Js.match_group]; rewrite H; reflexivity. Qed.

Lemma match_stats_path :
  Js.match_group "/bots/" "/stats" ("/bots/" +:+ id +:+ "/stats") = Some id.
Proof.
  destruct segment_parts as [Hne Hns].
  apply match_group_here. unfold Js.match_here. rewrite prefix_append.
  change (Js.drop (String.length "/bots/") ("/bots/" +:+ id +:+ "/stats"))
    with (id +:+ String "/" "stats").
  rewrite span_segment by exact Hns.
  destruct (String.eqb_spec id ""); [contradiction | reflexivity].
Qed.

Lemma match_reminders_path :
  Js.match_group "/user/" "" ("/user/" +:+ id +:+ "/reminders") = Some id.
Proof.
  destruct segment_parts as [Hne Hns].
  apply match_group_here. unfold Js.match_here. rewrite prefix_append.
  change (Js.drop (String.length "/user/") ("/user/" +:+ id +:+ "/reminders"))
    with (id +:+ String "/" "reminders").
  rewrite span_segment by exact Hns.
  destruct (String.eqb_spec id ""); [contradiction | reflexivity].
Qed.

End Paths.

Section TopGGWrite.

Import TopGG.

Variables (st : TopGG.t) (botId : string) (stats : Js.value) (e : env).
Hypothesis Hid : Js.segment botId = true.

Let stats_path : string := "/bots/" +:+ botId +:+ "/stats".
Let bot_path : string := "/bots/" +:+ botId.

Lemma postStats_run :
  run st (postStats botId stats) e =
  let '(r, st1, reqs) := _fetch st stats_path POST stats None e in
  (Normal r,
   (if isOk r
    then invalidateCache (invalidateCache st1 stats_path None) bot_path None
    else st1),
   reqs).
Proof.
  unfold run, settled, _fetchWithCache. simpl is_GET. cbv iota. simpl negb. cbv iota.
  fold stats_path.
  destruct (_fetch st stats_path POST stats None e) as [[r st1] reqs].
  assert (He : Js.ends_with "/stats" stats_path = true)
    by exact (ends_with_append "/stats" ("/bots/" +:+ botId)).
  rewrite He. unfold stats_path at 1. rewrite (match_stats_path botId Hid).
  fold stats_path. fold bot_path.
  destruct r; reflexivity.
Qed.

Lemma postStats_ok v st' reqs :
  run st (postStats botId stats) e = (Normal (Ok v), st', reqs) ->
  has_token st = true /\ limited st (now e) = false /\
  st' = invalidateCache (invalidateCache st stats_path None) bot_path None.
Proof.
  rewrite postStats_run.
  destruct (_fetch st stats_path POST stats None e) as [[r st1] reqs1] eqn:Hf.
  intros H. inversion H; subst.
  apply fetch_ok in Hf as (? & ? & -> & _). auto.
Qed.

Lemma postStats_err msg st' reqs :
  run st (postStats botId stats) e = (Normal (Err msg), st', reqs) ->
  cache st' = cache st.
Proof.
  rewrite postStats_run.
  pose proof (fetch_frame st stats_path POST stats None e) as Hfr.
  destruct (_fetch st stats_path POST stats None e) as [[r st1] reqs1].
  intros H. inversion H; subst. simpl in *. tauto.
Qed.

Lemma fresh_after_invalidation path e' :
  has_token st = true -> limited st (now e) = false -> (now e <= now e')%Z ->
  path = stats_path \/ path = bot_path ->
  let st' := invalidateCache (invalidateCache st stats_path None) bot_path None in
  (_fetchWithCache st' path GET Js.VUndefined None e').2 =
  [request_of st' path GET Js.VUndefined None].
Proof.
  intros Ht Hl Hle Hp st'.
  rewrite cached_get_requests.
  assert (Hnone : cache st' !! getCacheKey path None = None).
  { unfold st'. simpl. rewrite lookup_delete. case_decide; [reflexivity|].
    destruct Hp as [->| ->]; [apply lookup_delete_eq | congruence]. }
  unfold live. rewrite Hnone.
  rewrite fetch_requests.
  change (has_token st') with (has_token st).
  change (limited st' (now e')) with (limited st (now e')).
  rewrite Ht, (limited_later st (now e) (now e') Hl Hle). reflexivity.
Qed.

End TopGGWrite.

Section AriwaWrite.

Import AriwaAPI.

Variables (st : AriwaAPI.t) (userId : string) (enabled : bool) (e : env).
Hypothesis Hid : Js.segment userId = true.

Let reminders_path : string := "/user/" +:+ userId +:+ "/reminders".
Let user_path : string := "/user/" +:+ userId.

Lemma setUserReminders_run :
  setUserReminders st userId (Some enabled) e =
  let r := Fetcher.safeFetchJSON (BASE_URL +:+ reminders_path) (reply e) in
  (r,
   (if isOk r then invalidateCache st user_path else st),
   [AriwaAPI.request_of st reminders_path PATCH (Js.VObj [("enable", Js.VBool enabled)])]).
Proof.
  unfold setUserReminders, _fetchWithCache, _fetch. simpl is_GET. cbv iota. simpl negb. cbv iota.
  fold reminders_path.
  assert (Hi : Js.includes "/user/" reminders_path = true)
    by exact (includes_here "/user/" (userId +:+ "/reminders")).
  assert (He : Js.ends_with "/reminders" reminders_path = true)
    by exact (ends_with_append "/reminders" ("/user/" +:+ userId)).
  rewrite Hi, He. unfold reminders_path at 2. rewrite (match_reminders_path userId Hid).
  fold user_path.
  destruct (Fetcher.safeFetchJSON _ _); reflexivity.
Qed.

Lemma fresh_after_user_invalidation e' :
  (getUser (invalidateCache st user_path) userId e').2 =
  [AriwaAPI.request_of (invalidateCache st user_path) user_path GET Js.VUndefined].
Proof.
  unfold getUser. fold user_path. rewrite ariwa_get.
  unfold live. simpl. unfold getCacheKey. rewrite lookup_delete_eq.
  destruct (Fetcher.safeFetchJSON _ _); reflexivity.
Qed.

End AriwaWrite.

(** C8 (as amended).  For an id that is not empty and holds no slash: a
    successful [postStats(botId, ...)] leaves the cache as it was with
    exactly the keys [/bots/{botId}/stats] and [/bots/{botId}] removed, and a
    [getStats] or [getBot] for that id issued afterwards sends a fresh
    request; a successful [setUserReminders(userId, ...)] leaves the cache as
    it was with exactly the key [/user/{userId}] removed, and a [getUser]
    afterwards sends a fresh request; a mutating call that fails leaves the
    cache unchanged. *)
Theorem write_invalidates :
  (forall st botId stats e,
     Js.segment botId = true ->
     let stats_path := "/bots/" +:+ botId +:+ "/stats" in
     let bot_path := "/bots/" +:+ botId in
     let '(r, st', _) := TopGG.run st (TopGG.postStats botId stats) e in
     (forall v, r = Normal (Ok v) ->
        TopGG.cache st' = delete bot_path (delete stats_path (TopGG.cache st)) /\
        forall e', now e <= now e' ->
          (TopGG.run st' (TopGG.getStats botId) e').2 =
            [TopGG.request_of st' stats_path GET Js.VUndefined None] /\
          (TopGG.run st' (TopGG.getBot botId) e').2 =
            [TopGG.request_of st' bot_path GET Js.VUndefined None]) /\
     (forall msg, r = Normal (Err msg) -> TopGG.cache st' = TopGG.cache st)) /\
  (forall st userId enabled e,
     Js.segment userId = true ->
     let user_path := "/user/" +:+ userId in
     let '(r, st', _) := AriwaAPI.setUserReminders st userId (Some enabled) e in
     (forall v, r = Ok v ->
        AriwaAPI.cache st' = delete user_path (AriwaAPI.cache st) /\
        forall e',
          (AriwaAPI.getUser st' userId e').2 =
            [AriwaAPI.request_of st' user_path GET Js.VUndefined]) /\
     (forall msg, r = Err msg -> AriwaAPI.cache st' = AriwaAPI.cache st)).
Proof.
  split.
  - intros st botId stats e Hid stats_path bot_path.
    destruct (TopGG.run st (TopGG.postStats botId stats) e) as [[r st'] reqs] eqn:Hrun.
    split.
    + intros v ->.
      apply (postStats_ok st botId stats e Hid) in Hrun as (Ht & Hl & ->).
      split; [reflexivity|].
      intros e' Hle. split.
      * rewrite (proj1 (proj2 (run_plan _ (TopGG.getStats botId) e'))).
        apply (fresh_after_invalidation st botId e stats_path e' Ht Hl Hle). left. reflexivity.
      * rewrite (proj1 (proj2 (run_plan _ (TopGG.getBot botId) e'))).
        apply (fresh_after_invalidation st botId e bot_path e' Ht Hl Hle). right. reflexivity.
    + intros msg ->. eapply postStats_err; eauto.
  - intros st userId enabled e Hid user_path.
    rewrite (setUserReminders_run st userId enabled e Hid).
    cbv zeta.
    destruct (Fetcher.safeFetchJSON _ _) as [v|msg]; simpl.
    + split; [|intros; discriminate].
      intros v' _. split; [reflexivity|].
      intros e'. apply fresh_after_user_invalidation.
    + split; [intros; discriminate | reflexivity].
Qed.

(** * Concrete runs *)

Section ClientExamples.
Import Client.

(** C1, counterexample. *)
Lemma ready_drops_marker :
  let d := Js.VObj [("name", Js.VStr "bot")] in
  Js.get ready_frame "op" = Js.VNum 3 /\
  Js.get ready_frame "ts" = Js.VNum 7 /\
  emitted (handleMessage (Decoded ready_frame) idle).2 = [EvReady d] /\
  Js.get d "ts" = Js.VUndefined /\
  emitted (handleMessage (Decoded ready_frame) idle).2
    <> [EvReady (Js.spread_with d "ts" (Js.VNum 7))].
Proof. repeat split; try reflexivity. discriminate. Qed.

Lemma handleMessage_dispatch_witness :
  Js.nullish vote_frame = false /\
  emitted (handleMessage (Decoded vote_frame) idle).2 =
  [EvVote (Js.VObj [("user", Js.VStr "u1"); ("ts", Js.VNum 1700000000000)])].
Proof.
  split; [reflexivity|].
  pose proof (handleMessage_dispatch idle vote_frame eq_refl) as H.
  vm_compute in H. destruct H as (_ & H & _). exact H.
Defined.

Lemma handleMessage_null_throws_witness :
  socket_state online 0 = Some OPEN /\
  emitted (step (SocketMessage 0 (Decoded Js.VNull)) online).2 = [] /\
  (step (SocketMessage 0 (Decoded Js.VNull)) online).1.2 = online.
Proof.
  split; [reflexivity|].
  destruct (handleMessage_null_throws online) as (_ & _ & H).
  rewrite (H 0%nat _ eq_refl eq_refl eq_refl). split; reflexivity.
Defined.

Lemma pending_reconnect_survives_disconnect_witness :
  list_find (fun p => fst p = 0%nat) (timers dropped) =
    Some (0%nat, (0%nat, ReconnectTimer (backoff (me online) 1 half))) /\
  socket_state dropped 0 = Some CLOSED /\
  map what (disconnect dropped).2 = [Resolve] /\
  intentionalClose (me (disconnect dropped).1.2) = false /\
  opened (step (TimerFires 0) (disconnect dropped).1.2).2 = [1%nat] /\
  socket_state reopened 1 = Some OPEN /\
  intentionalClose (me (disconnect reopened).1.2) = true /\
  opened (step (TimerFires 0) (disconnect reopened).1.2).2 = [2%nat].
Proof.
  assert (Hf : list_find (fun p => fst p = 0%nat) (timers dropped) =
    Some (0%nat, (0%nat, ReconnectTimer (backoff (me online) 1 half)))) by reflexivity.
  assert (Hg : list_find (fun p => fst p = 0%nat) (timers reopened) =
    Some (0%nat, (0%nat, ReconnectTimer (backoff (me online) 1 half)))) by reflexivity.
  split; [exact Hf|]. split; [reflexivity|].
  pose proof (pending_reconnect_survives_disconnect dropped 0 0 _ Hf) as H.
  pose proof (pending_reconnect_survives_disconnect reopened 0 0 _ Hg) as G.
  destruct (disconnect dropped) as [[r w1] log1].
  destruct (disconnect reopened) as [[r' w1'] log1'].
  cbn [fst snd].
  destruct H as (_ & _ & _ & _ & Hclosed & H).
  destruct G as (_ & _ & _ & Hopen & _ & G).
  destruct (step (TimerFires 0) w1) as [[r2 w2] log2].
  destruct (step (TimerFires 0) w1') as [[r2' w2'] log2'].
  cbn [fst snd].
  destruct Hclosed as (Hres & Hflag & _).
  { intros id Hid. inversion Hid. discriminate. }
  destruct (Hopen 1%nat eq_refl eq_refl) as [Hmark _].
  split; [exact Hres|]. split; [exact Hflag|].
  split; [exact (proj1 (proj2 H))|]. split; [reflexivity|].
  split; [exact Hmark|]. exact (proj1 (proj2 G)).
Defined.

Lemma close_reconnect_rule_witness :
  reconnects (on_close 1000 "" half online).2 = [] /\
  exists delay, reconnects (on_close 1006 "" half online).2 = [delay].
Proof.
  split.
  - pose proof (close_reconnect_rule online 1000 "" half) as H.
    destruct (on_close 1000 "" half online) as [[r w'] log].
    destruct H as (_ & H & _). exact (proj1 (H eq_refl)).
  - pose proof (close_reconnect_rule online 1006 "" half) as H.
    destruct (on_close 1006 "" half online) as [[r w'] log].
    destruct H as (_ & _ & H & _).
    destruct (H ltac:(discriminate) eq_refl eq_refl eq_refl) as (delay & Hd & _).
    exists delay. exact Hd.
Defined.



(** The delay that is no number.  With [initialDelay: 0] and the default
    [maxAttempts], after 1751 connections lost in a row [1.5^1751] is beyond
    the doubles: [Math.pow] gives [Infinity], [0 * Infinity] is [NaN], and
    so is the delay of the next reconnection. *)
Lemma overflow_makes_delay_NaN :
  let w := (run (storm 1751) hasty_online).1 in
  reconnectDelay (me w) = Double.zero /\
  maxReconnectDelay (me w) = Double.of_Z 30000 /\
  maxReconnectAttempts (me w) = Infinity /\
  reconnectAttempts (me w) = 1751%nat /\
  nearest_pow 1750 = S754_finite false 7237316370821976 971 /\
  nearest_pow 1751 = Double.infinity /\
  reconnects (step (SocketCloses 1751 1006 "" half) w).2 = [Double.NaN] /\
  Double.nonneg Double.NaN = false /\
  Double.leb Double.NaN (Double.add (maxReconnectDelay (me w)) (Double.of_Z 1000)) = false.
Proof.
  intros w.
  assert (H0 : lost (me hasty_online) 0 hasty_online).
  { split; [reflexivity|]. split; [reflexivity|]. split; [|split; reflexivity].
    eexists. split; [reflexivity|]. repeat split. discriminate. }
  pose proof (storm_lost (me hasty_online) eq_refl eq_refl eq_refl hasty_online 1751 H0)
    as HL.
  fold w in HL.
  destruct (lost_step (me hasty_online) eq_refl eq_refl eq_refl 1751 w half HL) as [Hstep _].
  destruct HL as (Hme & _).
  rewrite Hme, Hstep. clearbody w. clear.
  split; [reflexivity|]. split; [reflexivity|]. split; [reflexivity|].
  split; [reflexivity|].
  split; [vm_compute; reflexivity|]. split; [vm_compute; reflexivity|].
  split; [vm_compute; reflexivity|]. split; reflexivity.
Qed.

(** C9, counterexample. *)
Lemma marker_regresses :
  stored (run (map (SocketMessage 0)
                 [Decoded (frame 10 (Js.VObj []) 10)]) online).1 = Js.VNum 10 /\
  stored (run (map (SocketMessage 0)
                 [Decoded (frame 10 (Js.VObj []) 10);
                  Decoded (frame 10 (Js.VObj []) 5)]) online).1 = Js.VNum 5 /\
  (5 < 10)%Z.
Proof. repeat split; reflexivity. Qed.

Lemma online_receiving : receiving 0 online.
Proof. eexists. repeat split; reflexivity. Defined.

Lemma marker_last_wins_witness :
  receiving 0 online /\
  let frames := [Decoded (frame 10 (Js.VObj []) 5); Decoded (frame 10 (Js.VObj []) 10)] in
  stored (run (map (SocketMessage 0) frames) online).1 = Js.VNum 10 /\
  exists m, stored (run (map (SocketMessage 0) (take 1 frames)) online).1 = Js.VNum m /\
            (5 <= m)%Z.
Proof.
  split; [exact online_receiving|]. intros frames.
  pose proof (marker_last_wins online 0 frames online_receiving) as H.
  destruct (run (map (SocketMessage 0) frames) online) as [w' log] eqn:E.
  destruct H as (Hs & Hm & _). split; [exact Hs|].
  apply (Hm [5; 10]%Z eq_refl
           ltac:(repeat constructor; lia)
           (take 1 frames) (drop 1 frames) 5%Z eq_refl).
  left.
Defined.

End ClientExamples.

Section WrapperExamples.

Lemma no_token_no_network_witness :
  TopGG.has_token (TopGG.new None) = false /\
  TopGG.exec [TopGG.Call (TopGG.getBot "1") (exchange 0 (Fetcher.number_reply 7) 5);
              TopGG.Clear;
              TopGG.Call (TopGG.hasVoted "1" "2") (exchange 9 (Fetcher.number_reply 1) 12)]
             (TopGG.new None) =
  ([Normal (Err "Top.gg token not provided"); Normal (Err "Top.gg token not provided")],
   [], TopGG.new None).
Proof.
  split; [reflexivity|].
  pose proof (no_token_no_network None
    [TopGG.Call (TopGG.getBot "1") (exchange 0 (Fetcher.number_reply 7) 5);
     TopGG.Clear;
     TopGG.Call (TopGG.hasVoted "1" "2") (exchange 9 (Fetcher.number_reply 1) 12)]
    eq_refl) as H.
  destruct (TopGG.exec _ _) as [[results reqs] st'] eqn:E.
  destruct H as (Hlen & Hall & ->).
  vm_compute in E. inversion E; subst. reflexivity.
Defined.

(** C6, counterexample. *)
Lemma cached_read_succeeds_in_cooldown :
  let '(results, reqs, st) := TopGG.exec TopGG.hit_in_cooldown TopGG.sample in
  results !! 1%nat = Some (Normal (Err "Rate limit exceeded, retry later")) /\
  TopGG.rateLimitReset st = Some 60015 /\
  20 < 60015 /\
  results !! 2%nat = Some (Normal (Ok (Js.VNum 7))) /\
  length reqs = 2%nat.
Proof. vm_compute. repeat split; reflexivity. Qed.

(** the wrapper of the examples once the 429 has come in *)
Lemma cooldown_blocks_network_witness :
  let st := (TopGG.exec (take 2 TopGG.hit_in_cooldown) TopGG.sample).2 in
  TopGG.has_token st = true /\ TopGG.rateLimitReset st = Some 60015 /\ 60015 <> 0 /\
  TopGG.limited TopGG.sample 10 = false /\
  Fetcher.status
    {| Fetcher.status := 429; Fetcher.statusText := "Too Many Requests";
       Fetcher.contentType := None;
       Fetcher.json_stringified := Fetcher.ReadError "Unexpected end of JSON input";
       Fetcher.text := Fetcher.Read "";
       Fetcher.text_parsed := Fetcher.ReadError "Unexpected end of JSON input" |} = 429%nat /\
  (TopGG._fetch TopGG.sample "/bots/1/stats" GET Js.VUndefined None
     (exchange 10 Fetcher.too_many_requests 15)).1.1 =
    Err "Rate limit exceeded, retry later" /\
  TopGG._fetchWithCache st "/bots/2" GET Js.VUndefined None
    (exchange 30 (Fetcher.number_reply 8) 35) =
    (Err "Rate limited until 1970-01-01T00:01:00.015Z", st, []) /\
  (TopGG._fetchWithCache st "/bots/2" GET Js.VUndefined None
    (exchange 60015 (Fetcher.number_reply 8) 60020)).2 =
    [TopGG.request_of st "/bots/2" GET Js.VUndefined None].
Proof.
  intros st.
  assert (Ht : TopGG.has_token st = true) by reflexivity.
  assert (HR : TopGG.rateLimitReset st = Some 60015) by reflexivity.
  assert (Hnz : 60015 <> 0) by lia.
  assert (Hl : TopGG.limited TopGG.sample 10 = false) by reflexivity.
  destruct cooldown_blocks_network as [H429 Hwin].
  destruct (Hwin st 60015 Ht HR Hnz) as (_ & Hin & Hout).
  split; [exact Ht|]. split; [exact HR|]. split; [exact Hnz|].
  split; [exact Hl|]. split; [reflexivity|]. split; [|split].
  - rewrite (H429 TopGG.sample "/bots/1/stats" GET Js.VUndefined None
               (exchange 10 Fetcher.too_many_requests 15) _ eq_refl Hl eq_refl eq_refl).
    reflexivity.
  - rewrite (Hin "/bots/2" GET Js.VUndefined None
               (exchange 30 (Fetcher.number_reply 8) 35) ltac:(simpl; lia)).
    reflexivity.
  - apply Hout; [simpl; lia | reflexivity].
Defined.

(** C7, counterexample. *)
Lemma expired_read_blocked_in_cooldown :
  let '(results, reqs, st) := TopGG.exec TopGG.expired_in_cooldown TopGG.sample in
  results !! 0%nat = Some (Normal (Ok (Js.VNum 7))) /\
  5 + TopGG.cacheTTL TopGG.sample <= 2000 /\
  results !! 2%nat = Some (Normal (Err "Rate limited until 1970-01-01T00:01:00.510Z")) /\
  length reqs = 2%nat.
Proof. vm_compute. repeat split; congruence. Qed.

Lemma cache_round_trip_witness :
  let e := exchange 0 (Fetcher.number_reply 7) 5 in
  let st1 := (TopGG._fetchWithCache TopGG.sample "/bots/1" GET Js.VUndefined None e).1.2 in
  TopGG._fetchWithCache TopGG.sample "/bots/1" GET Js.VUndefined None e =
    (Ok (Js.VNum 7), st1, [TopGG.request_of TopGG.sample "/bots/1" GET Js.VUndefined None]) /\
  TopGG._fetchWithCache st1 "/bots/1" GET Js.VUndefined None
    (exchange 1004 (Fetcher.number_reply 8) 1010) = (Ok (Js.VNum 7), st1, []) /\
  (TopGG._fetchWithCache st1 "/bots/1" GET Js.VUndefined None
    (exchange 1005 (Fetcher.number_reply 8) 1010)).2 =
    [TopGG.request_of st1 "/bots/1" GET Js.VUndefined None].
Proof.
  intros e st1.
  assert (H1 : TopGG._fetchWithCache TopGG.sample "/bots/1" GET Js.VUndefined None e =
    (Ok (Js.VNum 7), st1, [TopGG.request_of TopGG.sample "/bots/1" GET Js.VUndefined None]))
    by reflexivity.
  split; [exact H1|].
  destruct cache_round_trip as [Htop _].
  destruct (Htop _ _ _ _ _ _ _ _ H1) as [_ Hread].
  split.
  - apply (proj1 (Hread Js.VUndefined (exchange 1004 (Fetcher.number_reply 8) 1010))).
    reflexivity.
  - rewrite (proj2 (Hread Js.VUndefined (exchange 1005 (Fetcher.number_reply 8) 1010)))
      by (simpl; lia).
    reflexivity.
Defined.

(** C8, counterexample. *)
Lemma slash_id_keeps_stale_entry :
  let '(results, reqs, st) := TopGG.exec TopGG.slash_in_id TopGG.sample in
  results !! 1%nat = Some (Normal (Ok (Js.VNum 0))) /\
  TopGG.cache st !! "/bots/a/b/stats" = Some {| data := Js.VNum 7; expiry := 1005 |} /\
  results !! 2%nat = Some (Normal (Ok (Js.VNum 7))) /\
  length reqs = 2%nat.
Proof. vm_compute. repeat split; reflexivity. Qed.

Lemma write_invalidates_witness :
  Js.segment "1" = true /\
  let e := exchange 10 (Fetcher.number_reply 0) 15 in
  let st := (TopGG.exec (take 1 TopGG.hit_in_cooldown) TopGG.sample).2 in
  TopGG.cache st !! "/bots/1" = Some {| data := Js.VNum 7; expiry := 1005 |} /\
  (TopGG.run st (TopGG.postStats "1" (Js.VNum 3)) e).1.1 = Normal (Ok (Js.VNum 0)) /\
  TopGG.cache (TopGG.run st (TopGG.postStats "1" (Js.VNum 3)) e).1.2 = ∅.
Proof.
  split; [reflexivity|]. intros e st.
  split; [reflexivity|]. split; [reflexivity|].
  destruct write_invalidates as [Htop _].
  specialize (Htop st "1" (Js.VNum 3) e eq_refl). cbv zeta in Htop.
  destruct (TopGG.run st (TopGG.postStats "1" (Js.VNum 3)) e) as [[r st'] reqs] eqn:E.
  assert (Hr : r = Normal (Ok (Js.VNum 0))).
  { vm_compute in E. congruence. }
  destruct Htop as [Hok _]. destruct (Hok _ Hr) as [Hc _].
  cbn [fst snd]. rewrite Hc. vm_compute. reflexivity.
Defined.

End WrapperExamples.

(** * Further properties *)

(** * Connecting *)

Section Connecting.

Variable w : world.

(** the marker that [connect] starts from *)
Lemma connect_eq override file :
  let start :=
    if Js.nullish override then
      match persist_target (me w) with
      | Some _ => Persist.loadTimestamp file
      | None => Js.VUndefined
      end
    else override in
  let id := length (sockets w) in
  let c := set_reconnectAttempts 0
             (set_intentionalClose false (set_lastMessageTimestamp start (me w))) in
  connect override file w =
  (Normal tt,
   {| me := set_ws (Some id) c;
      sockets := sockets w ++
        [{| readyState := CONNECTING; handshake := headers_for (me w) start;
            listening := true; closing := [] |}];
      timers := timers w;
      next_timer := next_timer w |},
   [{| what := NewWebSocket id (headers_for (me w) start); seen := c |}]).
Proof. reflexivity. Qed.

End Connecting.

(** X1.  [connect] resets the attempt counter and the intentional-close
    flag and opens exactly one socket, which becomes the current one.  The
    marker it starts from is the argument when that is neither [null] nor
    [undefined]; otherwise what [loadTimestamp] reads when a marker path is
    configured, and [undefined] when none is.  The handshake carries
    [Authorization] and [name], and [lastMessageTimestamp] only for a truthy
    marker. *)
Theorem connect_handshake (w : world) (override : Js.value) (file : Persist.file_read) :
  let '(r, w', log) := connect override file w in
  r = Normal tt /\
  reconnectAttempts (me w') = 0%nat /\ intentionalClose (me w') = false /\
  ws (me w') = Some (length (sockets w)) /\
  opened log = [length (sockets w)] /\
  handshakes log = [headers_for (me w) (stored w')] /\
  (Js.nullish override = false -> stored w' = override) /\
  (Js.nullish override = true ->
     stored w' = match persist_target (me w) with
                 | Some _ => Persist.loadTimestamp file
                 | None => Js.VUndefined
                 end) /\
  (Js.truthy (stored w') = false ->
     handshakes log = [[("Authorization", wsToken (me w)); ("name", name (me w))]]).
Proof.
  rewrite connect_eq. cbv zeta.
  split; [reflexivity|]. split; [reflexivity|]. split; [reflexivity|].
  split; [reflexivity|]. split; [reflexivity|]. split; [reflexivity|].
  unfold stored. cbn [me set_ws lastMessageTimestamp set_reconnectAttempts
                      set_intentionalClose set_lastMessageTimestamp].
  split; [intros ->; reflexivity|]. split; [intros ->; reflexivity|].
  intros Hf. unfold handshakes, headers_for. simpl. rewrite Hf. reflexivity.
Qed.

(** X2.  When a pending reconnection timer fires, the client opens exactly
    one new socket, whatever the intentional-close flag holds: the new socket
    becomes the current one, its handshake carries the marker stored at that
    moment, the attempt counter, the flag and the marker are left as they
    are, and the timer is no longer pending. *)
Theorem timer_fire_reconnects (w : world) (t i : nat) (delay : Double.double) :
  list_find (fun p => fst p = t) (timers w) = Some (i, (t, ReconnectTimer delay)) ->
  let '(r, w', log) := step (TimerFires t) w in
  r = Normal tt /\
  opened log = [length (sockets w)] /\
  handshakes log = [headers_for (me w) (stored w)] /\
  ws (me w') = Some (length (sockets w)) /\
  socket_state w' (length (sockets w)) = Some CONNECTING /\
  intentionalClose (me w') = intentionalClose (me w) /\
  reconnectAttempts (me w') = reconnectAttempts (me w) /\
  stored w' = stored w /\
  Forall (fun p => fst p <> t) (timers w').
Proof.
  intros H. rewrite (timer_fires_eq w t i delay H). cbv zeta.
  repeat (split; [reflexivity|]).
  split.
  - unfold socket_state. simpl.
    rewrite lookup_app_r by lia. rewrite Nat.sub_diag. reflexivity.
  - repeat (split; [reflexivity|]).
    simpl. apply Forall_forall. intros p Hp.
    apply list_elem_of_filter in Hp as [Hp _].
    intros Heq. rewrite Heq, Nat.eqb_refl in Hp. exact Hp.
Qed.

(** * Messages *)

Lemma handleMessage_cases raw w :
  (exists err, raw = Malformed err /\
     handleMessage raw w = (Normal tt, w, [{| what := Emit (EvError err); seen := me w |}])) \/
  (raw = Decoded Js.VNull \/ raw = Decoded Js.VUndefined) /\
     (handleMessage raw w).1.2 = w /\ (handleMessage raw w).2 = [] \/
  (exists data, raw = Decoded data /\ Js.nullish data = false /\
     destructure data = Some (Js.get data "op", Js.get data "d", Js.get data "ts")).
Proof.
  destruct raw as [err|data].
  - left. eauto.
  - destruct (Js.nullish data) eqn:Hn.
    + right. left. destruct data; try discriminate; auto.
    + right. right. exists data. unfold destructure. rewrite Hn. auto.
Qed.

(** X3.  [handleMessage] emits [error] for exactly the messages that fail
    to parse, with the parse error; such a message emits nothing else, writes
    no marker file and leaves the client as it was. *)
Theorem error_only_when_malformed (raw : parsed) (w : world) (err : string) :
  (EvError err ∈ emitted (handleMessage raw w).2 <-> raw = Malformed err) /\
  (raw = Malformed err ->
     emitted (handleMessage raw w).2 = [EvError err] /\
     saves (handleMessage raw w).2 = [] /\
     (handleMessage raw w).1.2 = w).
Proof.
  split.
  - split.
    + destruct (handleMessage_cases raw w) as
        [(e & -> & Heq)|[(Hnull & _ & Hlog)|(data & -> & Hnn & Hd)]].
      * rewrite Heq. cbn. intros H. apply list_elem_of_singleton in H. congruence.
      * rewrite Hlog. intros H. inversion H.
      * rewrite (handleMessage_decoded w data _ _ _ Hd). cbn [snd].
        intros H.
        assert (Hem : emitted
           ({| what := Emit (dispatched (Js.get data "op") (Js.get data "d") (Js.get data "ts"));
               seen := me w |} ::
            (if Js.truthy (Js.get data "ts") then
               match persist_target (me w) with
               | Some path =>
                   [{| what := SaveTimestamp path (Persist.saveTimestamp (Js.get data "ts"));
                       seen := set_lastMessageTimestamp (Js.get data "ts") (me w) |}]
               | None => []
               end
             else [])) =
           [dispatched (Js.get data "op") (Js.get data "d") (Js.get data "ts")]).
        { destruct (Js.truthy _); [|reflexivity].
          destruct (persist_target _); reflexivity. }
        rewrite Hem in H. apply list_elem_of_singleton in H.
        exfalso. unfold dispatched in H.
        destruct (Js.get data "op") as [| |b|n|s|l|p]; try discriminate.
        destruct n as [|p|p]; try discriminate.
        do 4 (destruct p as [p|p|]; try discriminate).
    + intros ->. cbn. left.
  - intros ->. repeat split; reflexivity.
Qed.

(** X4.  For a decoded message other than [null]: a falsy [ts] (absent,
    [0], the empty string, [false], [null]) leaves the client untouched and
    writes nothing; a truthy [ts] becomes the marker in memory and, when a
    marker path is configured, is written once as
    [{ lastMessageTimestamp: ts }], and not at all otherwise. *)
Theorem marker_write_rule (w : world) (data : Js.value) :
  Js.nullish data = false ->
  let ts := Js.get data "ts" in
  let '(_, w', log) := handleMessage (Decoded data) w in
  (Js.truthy ts = false -> w' = w /\ saves log = []) /\
  (Js.truthy ts = true ->
     w' = with_me (set_lastMessageTimestamp ts) w /\
     saves log = match persist_target (me w) with
                 | Some path => [(path, Js.VObj [("lastMessageTimestamp", ts)])]
                 | None => []
                 end) /\
  (ts = Js.VNum 0 -> stored w' = stored w /\ saves log = []).
Proof.
  intros Hnn ts.
  assert (Hd : destructure data = Some (Js.get data "op", Js.get data "d", ts)).
  { unfold destructure. rewrite Hnn. reflexivity. }
  rewrite (handleMessage_decoded w data _ _ _ Hd). fold ts.
  assert (Hfalse : Js.truthy ts = false ->
     (if Js.truthy ts then with_me (set_lastMessageTimestamp ts) w else w) = w /\
     saves ({| what := Emit (dispatched (Js.get data "op") (Js.get data "d") ts);
               seen := me w |} ::
            (if Js.truthy ts then
               match persist_target (me w) with
               | Some path =>
                   [{| what := SaveTimestamp path (Persist.saveTimestamp ts);
                       seen := set_lastMessageTimestamp ts (me w) |}]
               | None => []
               end
             else [])) = []).
  { intros ->. split; reflexivity. }
  split; [exact Hfalse|]. split.
  - intros ->. split; [reflexivity|].
    destruct (persist_target (me w)); reflexivity.
  - intros Hz. destruct (Hfalse ltac:(rewrite Hz; reflexivity)) as [-> ->].
    split; reflexivity.
Qed.

(** X5.  What [handleMessage] writes for a frame with a truthy marker is
    read back by a later [connect] without argument on a client with a marker
    path: that client starts from the same marker and sends it in the
    [lastMessageTimestamp] header of its handshake. *)
Theorem marker_survives_restart (w w2 : world) (data : Js.value) (p p2 : string) :
  Js.nullish data = false ->
  Js.truthy (Js.get data "ts") = true ->
  persist_target (me w) = Some p ->
  persist_target (me w2) = Some p2 ->
  exists content,
    saves (handleMessage (Decoded data) w).2 = [(p, content)] /\
    let '(_, w2', log2) :=
      connect Js.VUndefined (Persist.ReadText (Decoded content)) w2 in
    stored w2' = Js.get data "ts" /\
    handshakes log2 =
      [[("Authorization", wsToken (me w2)); ("name", name (me w2));
        ("lastMessageTimestamp", Js.to_string (Js.get data "ts"))]].
Proof.
  intros Hnn Ht Hp Hp2.
  exists (Js.VObj [("lastMessageTimestamp", Js.get data "ts")]).
  split.
  - assert (Hd : destructure data =
                 Some (Js.get data "op", Js.get data "d", Js.get data "ts")).
    { unfold destructure. rewrite Hnn. reflexivity. }
    rewrite (handleMessage_decoded w data _ _ _ Hd). cbn [snd].
    rewrite Ht, Hp. reflexivity.
  - rewrite connect_eq. cbv zeta. simpl Js.nullish. cbv iota. rewrite Hp2.
    unfold stored, handshakes, headers_for. simpl. rewrite Ht. split; reflexivity.
Qed.

(** * Relations between the world before and after *)

Section Follows.

Variable R : world -> world -> list observed -> Prop.
Hypothesis R_refl : forall w, R w w [].
Hypothesis R_trans :
  forall w w1 w2 l1 l2, R w w1 l1 -> R w1 w2 l2 -> R w w2 (l1 ++ l2).

Lemma follows_ret {A : Type} (a : A) : follows R (ret a).
Proof. intros w. apply R_refl. Qed.

Lemma follows_throw {A : Type} e : follows R (@throw A e).
Proof. intros w. apply R_refl. Qed.

Lemma follows_this : follows R this.
Proof. intros w. apply R_refl. Qed.

Lemma follows_state : follows R state.
Proof. intros w. apply R_refl. Qed.

Lemma follows_bind {A B : Type} (m : M A) (k : A -> M B) :
  follows R m -> (forall a, follows R (k a)) -> follows R (bind m k).
Proof.
  intros Hm Hk w. unfold bind. specialize (Hm w).
  destruct (m w) as [[[a|e] w1] l1]; simpl in *; [|exact Hm].
  specialize (Hk a w1). destruct (k a w1) as [[r w2] l2]; simpl in *.
  eapply R_trans; eauto.
Qed.

Lemma follows_for_each {A : Type} (l : list A) (f : A -> M unit) :
  (forall x, follows R (f x)) -> follows R (for_each l f).
Proof.
  intros Hf. induction l as [|x rest IH]; simpl.
  - apply follows_ret.
  - apply follows_bind; [apply Hf | intros _; exact IH].
Qed.

End Follows.

(** * The budget of reconnections *)

Section Budget.

Variable k : nat.

Local Abbreviation budget := (follows (within_budget k)).

Lemma reconnects_app l1 l2 : reconnects (l1 ++ l2) = reconnects l1 ++ reconnects l2.
Proof. unfold reconnects. apply omap_app. Qed.

Lemma budget_refl w : within_budget k w w [].
Proof. split; [reflexivity|]. split; [simpl; lia | auto]. Qed.

Lemma budget_trans w w1 w2 l1 l2 :
  within_budget k w w1 l1 -> within_budget k w1 w2 l2 -> within_budget k w w2 (l1 ++ l2).
Proof.
  intros (Hm1 & Ha1 & Hk1) (Hm2 & Ha2 & Hk2). split; [congruence|]. split.
  - rewrite reconnects_app, length_app. lia.
  - intros Hmax Hle. apply Hk2; [congruence | apply Hk1; assumption].
Qed.

Lemma budget_bind {A B : Type} (m : M A) (f : A -> M B) :
  budget m -> (forall a, budget (f a)) -> budget (bind m f).
Proof. apply follows_bind. exact budget_trans. Qed.

Lemma budget_update f :
  (forall w, maxReconnectAttempts (me (f w)) = maxReconnectAttempts (me w) /\
             reconnectAttempts (me (f w)) = reconnectAttempts (me w)) ->
  budget (update f).
Proof.
  intros Hf w. destruct (Hf w) as [Hm Ha]. simpl.
  split; [exact Hm|]. split; [simpl; lia|]. intros _ Hle. lia.
Qed.

Lemma budget_issue e : no_reschedule e -> budget (issue e).
Proof.
  intros He w. simpl. split; [reflexivity|]. split; [|auto].
  unfold reconnects. simpl. destruct e as [| | |? [?|]| | | |]; simpl; try lia. contradiction.
Qed.

Lemma budget_handleMessage raw : budget (handleMessage raw).
Proof.
  intros w. destruct raw as [err|data].
  - apply (budget_issue (Emit (EvError err)) I).
  - destruct (destructure data) as [[[op d] ts]|] eqn:Hd.
    + rewrite (handleMessage_decoded w data op d ts Hd).
      unfold within_budget. cbn [fst snd].
      rewrite no_reschedule_reconnects.
      2:{ constructor; [exact I|]. destruct (Js.truthy ts); [|constructor].
          destruct (persist_target (me w)); repeat constructor. }
      destruct (Js.truthy ts); simpl; (split; [reflexivity|]); (split; [lia | auto]).
    + unfold handleMessage. rewrite Hd. apply budget_refl.
Qed.

Lemma budget_connect_socket : budget _connect.
Proof.
  unfold _connect.
  apply budget_bind; [apply follows_this, budget_refl | intros c].
  apply budget_bind; [apply follows_state, budget_refl | intros w0].
  apply budget_bind; [apply budget_issue; exact I | intros _].
  apply budget_bind; [apply budget_update; auto | intros _].
  apply budget_update; auto.
Qed.

Lemma budget_on_close code reason rnd : budget (on_close code reason rnd).
Proof.
  intros w. rewrite on_close_eq.
  destruct (will_reconnect (me w) code) eqn:Hw; simpl.
  - split; [reflexivity|]. split; [unfold reconnects; simpl; lia|].
    intros Hmax. unfold will_reconnect in Hw.
    apply andb_true_iff in Hw as [_ Hb]. rewrite Hmax in Hb.
    apply below_Finite in Hb. rewrite <- Zlt_Qlt in Hb.
    intros Hle. cbn [rescheduled me reconnectAttempts set_reconnectAttempts]. lia.
  - split; [reflexivity|]. split; [unfold reconnects; simpl; lia | auto].
Qed.

Lemma budget_closed_after_disconnect t : budget (closed_after_disconnect t).
Proof.
  unfold closed_after_disconnect, removeAllListeners, clear_timeout, alter_socket.
  apply budget_bind; [apply budget_update; auto | intros _].
  apply budget_bind; [apply follows_this, budget_refl | intros c].
  apply budget_bind.
  { destruct (ws c); [|apply follows_ret, budget_refl].
    apply budget_bind; [apply budget_update; auto | intros _]. apply budget_issue. exact I. }
  intros _. apply budget_bind; [apply budget_update; auto | intros _].
  apply budget_issue. exact I.
Qed.

Lemma budget_failed_after_disconnect t err : budget (failed_after_disconnect t err).
Proof.
  unfold failed_after_disconnect, removeAllListeners, clear_timeout, alter_socket.
  apply budget_bind; [apply budget_update; auto | intros _].
  apply budget_bind; [apply follows_this, budget_refl | intros c].
  apply budget_bind.
  { destruct (ws c); [apply budget_update; auto | apply follows_ret, budget_refl]. }
  intros _. apply budget_bind; [apply budget_update; auto | intros _].
  apply budget_issue. exact I.
Qed.

Lemma budget_disconnect : budget disconnect.
Proof.
  unfold disconnect.
  apply budget_bind; [apply follows_this, budget_refl | intros c].
  apply budget_bind; [apply follows_state, budget_refl | intros w0].
  assert (Hearly : budget (assign (set_ws None);; issue Resolve)).
  { apply budget_bind; [apply budget_update; auto | intros _].
    apply budget_issue. exact I. }
  destruct (ws c) as [id|]; [|exact Hearly].
  destruct (is_OPEN _); [|exact Hearly].
  apply budget_bind; [apply budget_update; auto | intros _].
  apply budget_bind.
  { unfold set_timeout.
    apply budget_bind; [apply follows_state, budget_refl | intros w1].
    apply budget_bind; [apply budget_update; auto | intros _].
    apply budget_bind; [apply budget_issue; exact I | intros _].
    apply follows_ret, budget_refl. }
  intros t. unfold alter_socket.
  apply budget_bind; [apply budget_update; auto | intros _].
  apply budget_bind; [apply budget_update; auto | intros _].
  apply budget_issue. exact I.
Qed.

Lemma budget_step i : resets_attempts i = false -> budget (step i).
Proof.
  intros Hi. unfold step.
  apply budget_bind; [apply follows_state, budget_refl | intros w0].
  destruct i as [o f| |id|id raw|id code reason rnd|id err|id]; try discriminate.
  - apply budget_disconnect.
  - destruct (sockets w0 !! id) as [s|]; [|apply follows_ret, budget_refl].
    destruct (is_OPEN (readyState s) && listening s);
      [apply budget_handleMessage | apply follows_ret, budget_refl].
  - destruct (sockets w0 !! id) as [s|]; [|apply follows_ret, budget_refl].
    assert (Hgo : budget (alter_socket id (set_readyState CLOSED);;
                          (if listening s then on_close code reason rnd else ret tt);;
                          for_each (closing s) closed_after_disconnect)).
    { apply budget_bind; [apply budget_update; auto | intros _].
      apply budget_bind.
      - destruct (listening s); [apply budget_on_close | apply follows_ret, budget_refl].
      - intros _. apply follows_for_each;
          [exact budget_refl | exact budget_trans | apply budget_closed_after_disconnect]. }
    destruct (readyState s); first [exact Hgo | apply follows_ret, budget_refl].
  - destruct (sockets w0 !! id) as [s|]; [|apply follows_ret, budget_refl].
    assert (Hgo : budget ((if listening s then on_error err else ret tt);;
                          for_each (closing s) (fun t => failed_after_disconnect t err))).
    { apply budget_bind.
      - destruct (listening s);
          [apply budget_issue; exact I | apply follows_ret, budget_refl].
      - intros _. apply follows_for_each;
          [exact budget_refl | exact budget_trans |
           intros t; apply budget_failed_after_disconnect]. }
    destruct (readyState s); first [exact Hgo | apply follows_ret, budget_refl].
  - destruct (list_find _ _) as [[j [j' [delay|]]]|]; [| |apply follows_ret, budget_refl].
    + apply budget_bind; [apply budget_update; auto | intros _]. apply budget_connect_socket.
    + apply budget_bind; [apply budget_update; auto | intros _]. apply budget_issue. exact I.
Qed.

Lemma budget_run inputs : forall w,
  forallb (fun i => negb (resets_attempts i)) inputs = true ->
  within_budget k w (run inputs w).1 (run inputs w).2.
Proof.
  induction inputs as [|i rest IH]; intros w Hin; [apply budget_refl|].
  simpl in Hin. apply andb_true_iff in Hin as [Hi Hrest]. apply negb_true_iff in Hi.
  rewrite run_cons. simpl.
  eapply budget_trans; [apply budget_step, Hi | apply IH, Hrest].
Qed.

End Budget.

(** X6.  With [maxReconnectAttempts] set to a whole number [k] and a
    counter that is not above it, through any events that neither call
    [connect] nor open a socket the counter grows by one for each
    reconnection timer that is set and never passes [k]: at most
    [k - counter] timers are set. *)
Theorem reconnections_within_limit (k : nat) (w : world) (inputs : list input) :
  maxReconnectAttempts (me w) = Finite (inject_Z (Z.of_nat k)) ->
  (reconnectAttempts (me w) <= k)%nat ->
  forallb (fun i => negb (resets_attempts i)) inputs = true ->
  let '(w', log) := run inputs w in
  reconnectAttempts (me w') = (reconnectAttempts (me w) + length (reconnects log))%nat /\
  (reconnectAttempts (me w') <= k)%nat /\
  (length (reconnects log) <= k - reconnectAttempts (me w))%nat.
Proof.
  intros Hmax Hle Hin.
  destruct (budget_run k inputs w Hin) as (_ & Ha & Hk).
  destruct (run inputs w) as [w' log]. simpl in *.
  specialize (Hk Hmax Hle). repeat split; lia.
Qed.

(** * Transport errors *)

Section TransportError.

Variables (c : client) (err : string).

Local Abbreviation calm := (keeps (policy_of c) (error_effect err)).

Lemma calm_update f :
  (forall w, reconnectAttempts (me (f w)) = reconnectAttempts (me w) /\
             intentionalClose (me (f w)) = intentionalClose (me w) /\
             lastMessageTimestamp (me (f w)) = lastMessageTimestamp (me w)) ->
  calm (update f).
Proof.
  intros Hf. apply keeps_update. intros w (Ha & Hi & Hl).
  destruct (Hf w) as (Ha' & Hi' & Hl'). unfold policy_of. repeat split; congruence.
Qed.

Lemma calm_failed_after_disconnect t : calm (failed_after_disconnect t err).
Proof.
  unfold failed_after_disconnect, removeAllListeners, clear_timeout, alter_socket.
  apply keeps_bind; [apply calm_update; auto | intros _].
  apply keeps_bind; [apply keeps_this | intros c0].
  apply keeps_bind.
  { destruct (ws c0); [apply calm_update; auto | apply keeps_ret]. }
  intros _. apply keeps_bind; [apply calm_update; auto | intros _].
  apply keeps_issue. reflexivity.
Qed.

Lemma calm_step id : calm (step (SocketErrors id err)).
Proof.
  unfold step.
  apply keeps_bind; [apply keeps_state | intros w0].
  destruct (sockets w0 !! id) as [s|]; [|apply keeps_ret].
  assert (Hgo : calm ((if listening s then on_error err else ret tt);;
                      for_each (closing s) (fun t => failed_after_disconnect t err))).
  { apply keeps_bind.
    - destruct (listening s); [apply keeps_issue; reflexivity | apply keeps_ret].
    - intros _. apply keeps_for_each. intros t. apply calm_failed_after_disconnect. }
  destruct (readyState s); first [exact Hgo | apply keeps_ret].
Qed.

Lemma error_effects_log l :
  Forall (fun o => error_effect err (what o)) l ->
  reconnects l = [] /\ opened l = [] /\ saves l = [] /\
  Forall (fun e => e = EvError err) (emitted l).
Proof.
  induction 1 as [|o l Ho Hl (IH1 & IH2 & IH3 & IH4)]; [repeat split; constructor|].
  unfold reconnects, opened, saves, emitted in *. cbn [omap list_omap].
  destruct (what o) as [[]| | | | | | |]; simpl in Ho; try contradiction; subst;
    repeat split; auto.
Qed.

End TransportError.

(** X7.  An [error] event of a socket only reports: every event emitted is
    [error] with that error, no reconnection timer is set, no socket is
    opened, no marker is written, and the attempt counter, the
    intentional-close flag and the marker are left as they are.  When the
    socket is not closed and has its listeners, [error] is emitted. *)
Theorem transport_error_only_reports (w : world) (id : nat) (err : string) :
  let '(_, w', log) := step (SocketErrors id err) w in
  Forall (fun e => e = EvError err) (emitted log) /\
  reconnects log = [] /\ opened log = [] /\ saves log = [] /\
  reconnectAttempts (me w') = reconnectAttempts (me w) /\
  intentionalClose (me w') = intentionalClose (me w) /\
  stored w' = stored w /\
  (forall s, sockets w !! id = Some s -> readyState s <> CLOSED -> listening s = true ->
     exists rest, emitted log = EvError err :: rest).
Proof.
  destruct (calm_step (me w) err id w) as [(Ha & Hi & Hl) Hlog];
    [repeat split; reflexivity|].
  apply error_effects_log in Hlog as (Hr & Ho & Hs & He).
  assert (Hfirst : forall s, sockets w !! id = Some s -> readyState s <> CLOSED ->
            listening s = true ->
            exists rest, emitted (step (SocketErrors id err) w).2 = EvError err :: rest).
  { intros s Hs' Hr' Hl'. unfold step, bind, state. rewrite Hs'. cbn [fst snd].
    assert (Hgo : exists rest,
      emitted (let '(r, w2, l2) :=
                 ((if listening s then on_error err else ret tt);;
                  for_each (closing s) (fun t => failed_after_disconnect t err)) w in
               (r, w2, [] ++ l2)).2 = EvError err :: rest).
    { rewrite Hl'. unfold bind, on_error, emit, issue. cbn [fst snd].
      destruct (for_each _ _ w) as [[r2 w2] l2]. cbn. eauto. }
    destruct (readyState s); first [exact Hgo | contradiction]. }
  destruct (step (SocketErrors id err) w) as [[r w'] log]. simpl in *.
  repeat split; assumption.
Qed.

(** * A graceful disconnect *)

Section Graceful.

Variables (w : world) (id : nat) (s : socket).
Hypothesis Hws : ws (me w) = Some id.
Hypothesis Hs : sockets w !! id = Some s.
Hypothesis Hopen : readyState s = OPEN.

Lemma disconnect_open_eq :
  disconnect w =
  (Normal tt, (closing_world w id),
   [{| what := SetTimeout (next_timer w) DisconnectTimeout;
       seen := set_intentionalClose true (me w) |};
    {| what := CloseSocket id 1000 "Client disconnect";
       seen := set_intentionalClose true (me w) |}]).
Proof.
  unfold disconnect, bind, this, state. cbn [fst snd]. rewrite Hws.
  unfold socket_state. rewrite Hs. cbn [fmap option_fmap option_map default].
  rewrite Hopen. reflexivity.
Qed.

Lemma closing_world_socket :
  sockets (closing_world w id) !! id =
  Some {| readyState := CLOSING; handshake := handshake s; listening := listening s;
          closing := closing s ++ [next_timer w] |}.
Proof.
  unfold closing_world. cbn [sockets].
  rewrite !list_lookup_alter_eq, Hs. reflexivity.
Qed.

Hypothesis Hlistening : listening s = true.
Hypothesis Hfirst : closing s = [].

Lemma close_after_disconnect_eq code reason rnd :
  step (SocketCloses id code reason rnd) (closing_world w id) =
  (Normal tt, (closed_world w id),
   [{| what := Emit (EvDisconnected code reason);
       seen := set_intentionalClose true (me w) |};
    {| what := Terminate id; seen := set_intentionalClose true (me w) |};
    {| what := Resolve; seen := set_ws None (set_intentionalClose true (me w)) |}]).
Proof.
  unfold step, bind, state. cbn [fst snd].
  rewrite closing_world_socket. cbn [readyState listening closing].
  rewrite Hlistening, Hfirst. cbn [app for_each].
  unfold on_close, closed_after_disconnect, bind, emit, issue, this, ret, assign, update,
    clear_timeout, removeAllListeners, alter_socket.
  cbn. rewrite Hws. reflexivity.
Qed.

Lemma closed_world_socket :
  sockets (closed_world w id) !! id =
  Some {| readyState := CLOSED; handshake := handshake s; listening := false;
          closing := [] |}.
Proof.
  unfold closed_world. cbn [sockets].
  rewrite !list_lookup_alter_eq, closing_world_socket. reflexivity.
Qed.

End Graceful.

(** X8.  [disconnect] on an open socket with its listeners (and no earlier
    [disconnect] waiting on it) sets the five second timer and asks for the
    close with code 1000.  When the close arrives, whatever its code,
    [disconnected] is emitted, the socket is terminated, the promise is
    resolved, the client holds no socket, the listeners of the socket are
    gone and the five second timer is cleared; after that no event of that
    socket has any effect. *)
Theorem disconnect_resolves_on_close
  (w : world) (id : nat) (s : socket) (code : Z) (reason : string) (rnd : math) :
  ws (me w) = Some id -> sockets w !! id = Some s -> readyState s = OPEN ->
  listening s = true -> closing s = [] ->
  let '(_, w1, log1) := disconnect w in
  map what log1 =
    [SetTimeout (next_timer w) DisconnectTimeout; CloseSocket id 1000 "Client disconnect"] /\
  let '(_, w2, log2) := step (SocketCloses id code reason rnd) w1 in
  map what log2 = [Emit (EvDisconnected code reason); Terminate id; Resolve] /\
  ws (me w2) = None /\
  sockets w2 !! id =
    Some {| readyState := CLOSED; handshake := handshake s; listening := false;
            closing := [] |} /\
  Forall (fun p => fst p <> next_timer w) (timers w2) /\
  (forall raw, step (SocketMessage id raw) w2 = (Normal tt, w2, [])) /\
  (forall code' reason' rnd',
     step (SocketCloses id code' reason' rnd') w2 = (Normal tt, w2, [])) /\
  (forall err, step (SocketErrors id err) w2 = (Normal tt, w2, [])) /\
  step (SocketOpens id) w2 = (Normal tt, w2, []).
Proof.
  intros Hws Hs Hopen Hl Hc.
  rewrite (disconnect_open_eq w id s Hws Hs Hopen).
  split; [reflexivity|].
  rewrite (close_after_disconnect_eq w id s Hws Hs Hl Hc code reason rnd).
  pose proof (closed_world_socket w id s Hs) as Hsock.
  split; [reflexivity|]. split; [reflexivity|]. split; [exact Hsock|].
  split.
  { apply Forall_forall. intros p Hp. cbn [timers closed_world] in Hp.
    apply list_elem_of_filter in Hp as [Hp _].
    intros Heq. rewrite Heq, Nat.eqb_refl in Hp. exact Hp. }
  repeat split; intros; unfold step, bind, state; cbn [fst snd]; rewrite Hsock; reflexivity.
Qed.

(** * The fetcher *)

Section FetcherFacts.

Import Fetcher.

Lemma prefix_append_more n s b :
  String.prefix n s = true -> String.prefix n (s +:+ b) = true.
Proof.
  revert s. induction n as [|c n IH]; intros s H; simpl.
  - destruct (s +:+ b); reflexivity.
  - destruct s as [|c' s]; simpl in *; [discriminate|].
    destruct (Ascii.ascii_dec c c'); [apply IH, H | discriminate].
Qed.

Lemma includes_append_more n s b :
  Js.includes n s = true -> Js.includes n (s +:+ b) = true.
Proof.
  induction s as [|c s IH]; cbn [Js.includes]; intros H.
  - rewrite orb_false_r in H. apply includes_prefix.
    apply (prefix_append_more n "" b H).
  - apply orb_true_iff in H as [H|H].
    + apply includes_prefix. apply (prefix_append_more n (String c s) b H).
    + change (String c s +:+ b) with (String c (s +:+ b)). cbn [Js.includes].
      rewrite (IH H). apply orb_true_r.
Qed.

Lemma includes_between n a s b :
  Js.includes n s = true -> Js.includes n (a +:+ s +:+ b) = true.
Proof. intros H. apply includes_append, includes_append_more, H. Qed.

Lemma includes_refl s : Js.includes s s = true.
Proof.
  apply includes_prefix. induction s as [|c s IH]; simpl; [reflexivity|].
  destruct (Ascii.ascii_dec c c); [exact IH | contradiction].
Qed.

Lemma caught_mentions url m : exists a b, caught url m = Err (a +:+ url +:+ b).
Proof. unfold caught. eauto. Qed.

(** every failure message quotes the URL *)
Lemma failure_quotes_url url f msg :
  safeFetchJSON url f = Err msg -> exists a b, msg = a +:+ url +:+ b.
Proof.
  unfold safeFetchJSON. destruct f as [m|r].
  - unfold caught. intros H. inversion H. eauto.
  - destruct (negb (ok r)).
    + intros H. inversion H. eauto.
    + destruct (status r =? 204)%nat; [discriminate|].
      destruct (text r) as [t|m]; [|unfold caught; intros H; inversion H; eauto].
      destruct ((status r =? 200)%nat && (String.eqb t "" || is_blank t)); [discriminate|].
      destruct (negb (is_json (contentType r))); [intros H; inversion H; eauto|].
      destruct (text_parsed r) as [v|m]; [discriminate|].
      unfold caught. intros H. inversion H. eauto.
Qed.

End FetcherFacts.

(** X9.  Every failure message of [safeFetchJSON] contains the URL, and
    for a response whose status is not a success it also contains the status
    code and the status text. *)
Theorem failure_message_names_request (url : string) (f : Fetcher.fetched) (msg : string) :
  Fetcher.safeFetchJSON url f = Err msg ->
  Js.includes url msg = true /\
  (forall r, f = Fetcher.Responded r -> Fetcher.ok r = false ->
     Js.includes (Js.nat_to_string (Fetcher.status r)) msg = true /\
     Js.includes (Fetcher.statusText r) msg = true).
Proof.
  intros H. split.
  - destruct (failure_quotes_url url f msg H) as (a & b & ->).
    apply includes_between, includes_refl.
  - intros r -> Hok. unfold Fetcher.safeFetchJSON in H. rewrite Hok in H.
    cbn [negb] in H. inversion H. split.
    + apply (includes_append _ "Failed to fetch '"), includes_append,
        (includes_append _ "' with code "), includes_here.
    + apply (includes_append _ "Failed to fetch '"), includes_append,
        (includes_append _ "' with code "), includes_append,
        (includes_append _ " "), includes_here.
Qed.

(** * More on the two wrappers *)

Section TopGGMore.

Import TopGG.

Lemma url_includes_path n path query :
  Js.includes n path = true -> Js.includes n (build_url path query) = true.
Proof.
  intros H. unfold build_url. destruct query as [q|].
  - apply (includes_between n TOPGG_BASE_URL path), H.
  - apply includes_append, H.
Qed.

Lemma cached_get_failure st path b query e msg :
  (_fetchWithCache st path GET b query e).1.1 = Err msg ->
  cache (_fetchWithCache st path GET b query e).1.2 = cache st.
Proof.
  rewrite cached_get. destruct (live _ _ _); [discriminate|].
  pose proof (fetch_frame st path GET b query e) as Hfr. cbv zeta in Hfr.
  destruct (_fetch st path GET b query e) as [[[v|m] st1] reqs]; [discriminate|].
  intros _. simpl in *. tauto.
Qed.

End TopGGMore.

Section AriwaMore.

Import AriwaAPI.

Lemma ariwa_get_failure st path b e msg :
  (_fetchWithCache st path GET b e).1.1 = Err msg ->
  cache (_fetchWithCache st path GET b e).1.2 = cache st.
Proof.
  rewrite ariwa_get. destruct (live _ _ _); [discriminate|].
  destruct (Fetcher.safeFetchJSON _ _); [discriminate | reflexivity].
Qed.

End AriwaMore.

(** X11.  The rate-limit test looks for [429] anywhere in the failure
    message, and the message contains the URL: for a path that contains
    [429], every failed request, whatever its status, is answered
    [Rate limit exceeded, retry later] and starts the 60 second cooldown. *)
Theorem path_with_429_starts_cooldown
  (st : TopGG.t) (path : string) (m : verb) (b : Js.value)
  (query : option (list (string * TopGG.scalar))) (e : env) (msg : string) :
  TopGG.has_token st = true -> TopGG.limited st (now e) = false ->
  Js.includes "429" path = true ->
  Fetcher.safeFetchJSON (TopGG.build_url path query) (reply e) = Err msg ->
  TopGG._fetch st path m b query e =
  (Err "Rate limit exceeded, retry later",
   TopGG.with_rateLimitReset (later e + 60000) st,
   [TopGG.request_of st path m b query]).
Proof.
  intros Ht Hl Hp Hf. rewrite fetch_sends by assumption. rewrite Hf.
  destruct (failure_quotes_url _ _ _ Hf) as (a & c & ->).
  rewrite includes_between by (apply url_includes_path, Hp). reflexivity.
Qed.

(** X12.  A [GET] that fails leaves the cache of its wrapper exactly as it
    was, in both wrappers. *)
Theorem failures_are_not_cached :
  (forall st path b query e msg,
     (TopGG._fetchWithCache st path GET b query e).1.1 = Err msg ->
     TopGG.cache (TopGG._fetchWithCache st path GET b query e).1.2 = TopGG.cache st) /\
  (forall st path b e msg,
     (AriwaAPI._fetchWithCache st path GET b e).1.1 = Err msg ->
     AriwaAPI.cache (AriwaAPI._fetchWithCache st path GET b e).1.2 = AriwaAPI.cache st).
Proof.
  split.
  - intros. eapply cached_get_failure; eauto.
  - intros. eapply ariwa_get_failure; eauto.
Qed.

(** X13.  [invalidateCache] removes the entry of its key and no other;
    the next [GET] of that key sends a request (for the Top.gg wrapper: with a
    token and outside a cooldown); after [clearCache] every [GET] does. *)
Theorem invalidation_forces_refetch :
  (forall st path query b e,
     let st' := TopGG.invalidateCache st path query in
     (forall key, key <> TopGG.getCacheKey path query ->
        TopGG.cache st' !! key = TopGG.cache st !! key) /\
     TopGG.cache st' !! TopGG.getCacheKey path query = None /\
     (TopGG.has_token st = true -> TopGG.limited st (now e) = false ->
      (TopGG._fetchWithCache st' path GET b query e).2 =
        [TopGG.request_of st' path GET b query] /\
      (TopGG._fetchWithCache (TopGG.clearCache st) path GET b query e).2 =
        [TopGG.request_of st path GET b query])) /\
  (forall st path b e,
     let st' := AriwaAPI.invalidateCache st path in
     (forall key, key <> path -> AriwaAPI.cache st' !! key = AriwaAPI.cache st !! key) /\
     AriwaAPI.cache st' !! path = None /\
     (AriwaAPI._fetchWithCache st' path GET b e).2 = [AriwaAPI.request_of st' path GET b] /\
     (AriwaAPI._fetchWithCache (AriwaAPI.clearCache st) path GET b e).2 =
       [AriwaAPI.request_of st path GET b]).
Proof.
  split.
  - intros st path query b e st'. split; [|split].
    + intros key Hk. unfold st'. simpl. apply lookup_delete_ne.
      intros Heq. apply Hk. symmetry. exact Heq.
    + unfold st'. simpl. apply lookup_delete_eq.
    + intros Ht Hl. split.
      * rewrite cached_get_requests. unfold live, st'. simpl. rewrite lookup_delete_eq.
        rewrite fetch_requests.
        change (TopGG.has_token (TopGG.invalidateCache st path query)) with (TopGG.has_token st).
        change (TopGG.limited (TopGG.invalidateCache st path query) (now e))
          with (TopGG.limited st (now e)).
        rewrite Ht, Hl. reflexivity.
      * rewrite cached_get_requests. unfold live. simpl. rewrite lookup_empty.
        rewrite fetch_requests.
        change (TopGG.has_token (TopGG.clearCache st)) with (TopGG.has_token st).
        change (TopGG.limited (TopGG.clearCache st) (now e)) with (TopGG.limited st (now e)).
        rewrite Ht, Hl. reflexivity.
  - intros st path b e st'. split; [|split; [|split]].
    + intros key Hk. unfold st'. simpl. apply lookup_delete_ne.
      intros Heq. apply Hk. symmetry. exact Heq.
    + unfold st'. simpl. apply lookup_delete_eq.
    + rewrite ariwa_get. unfold live, st'. simpl. unfold AriwaAPI.getCacheKey.
      rewrite lookup_delete_eq. destruct (Fetcher.safeFetchJSON _ _); reflexivity.
    + rewrite ariwa_get. unfold live. simpl. rewrite lookup_empty.
      destruct (Fetcher.safeFetchJSON _ _); reflexivity.
Qed.

(** X14.  When [hasVoted] went to the network and answered with a
    boolean, that boolean says whether the [voted] field of the payload is the
    number 1, the payload itself is what the cache holds, and every
    [hasVoted] for the same bot and user before the expiry gives the same
    answer without a request. *)
Theorem hasVoted_answer_is_cached
  (st st1 : TopGG.t) (botId userId : string) (e : env) (answer : bool) (req : request) :
  TopGG.run st (TopGG.hasVoted botId userId) e = (Normal (Ok (Js.VBool answer)), st1, [req]) ->
  exists payload,
    Fetcher.safeFetchJSON
      (TopGG.build_url ("/bots/" +:+ botId +:+ "/check") (Some [("userId", TopGG.SStr userId)]))
      (reply e) = Ok payload /\
    answer = Js.is_num (Js.get payload "voted") 1 /\
    TopGG.cache st1 !! TopGG.getCacheKey ("/bots/" +:+ botId +:+ "/check")
                         (Some [("userId", TopGG.SStr userId)]) =
      Some {| data := payload; expiry := later e + TopGG.cacheTTL st |} /\
    forall e', now e' < later e + TopGG.cacheTTL st ->
      TopGG.run st1 (TopGG.hasVoted botId userId) e' =
      (Normal (Ok (Js.VBool answer)), st1, []).
Proof.
  unfold TopGG.run.
  destruct (TopGG._fetchWithCache st ("/bots/" +:+ botId +:+ "/check") GET Js.VUndefined
              (Some [("userId", TopGG.SStr userId)]) e) as [[[payload|msg] st'] reqs] eqn:Hf;
    [|discriminate].
  destruct (Js.nullish payload) eqn:Hn; [discriminate|].
  intros H. inversion H; subst.
  pose proof Hf as Hstored. apply cached_get_stored in Hstored as [Ht Hst].
  destruct (topgg_round_trip _ _ _ _ _ _ _ _ Hf) as [Hc Hread].
  assert (Hfetch : Fetcher.safeFetchJSON
      (TopGG.build_url ("/bots/" +:+ botId +:+ "/check") (Some [("userId", TopGG.SStr userId)]))
      (reply e) = Ok payload).
  { rewrite cached_get in Hf. destruct (live _ _ _); [discriminate|].
    destruct (TopGG._fetch _ _ _ _ _ _) as [[[v|m] s2] r2] eqn:Hfe; [|discriminate].
    apply fetch_ok in Hfe as (_ & _ & _ & _ & Hs). inversion Hf; subst. exact Hs. }
  exists payload. split; [exact Hfetch|]. split; [reflexivity|]. split; [exact Hc|].
  intros e' Hlt.
  rewrite (proj1 (Hread Js.VUndefined e') Hlt). rewrite Hn. reflexivity.
Qed.

(** * The order of the query entries *)

Section KeyOrder.

Import TopGG.













End KeyOrder.


(** X16.  [new AriwaClient(options)] throws [AriwaAPI requires a token]
    when the websocket token is empty.  Otherwise the client starts idle, both
    caches are empty, both wrappers take the TTL from [options.cache] (five
    minutes when absent), and without a (non-empty) [topgg] option every call
    of the Top.gg wrapper fails with [Top.gg token not provided] and sends
    nothing. *)
Theorem client_without_topgg_token (o : Client.options) :
  (Client.opt_ws o = "" -> Client.new o = Thrown "AriwaAPI requires a token") /\
  (Client.opt_ws o <> "" ->
   exists c, Client.new o = Normal c /\
     Client.core c = Client.boot (Client.new_client o) /\
     AriwaAPI.token (Client.wsApi c) = Client.opt_ws o /\
     AriwaAPI.cacheTTL (Client.wsApi c) = default 300000%Z (Client.opt_cache o) /\
     TopGG.cacheTTL (Client.topgg c) =
       (if TopGG.has_token (Client.topgg c)
        then default 300000%Z (Client.opt_cache o) else 300000%Z) /\
     AriwaAPI.cache (Client.wsApi c) = ∅ /\ TopGG.cache (Client.topgg c) = ∅ /\
     (forall tok, Client.opt_topgg o = Some tok -> tok <> "" ->
        TopGG.token (Client.topgg c) = Some tok) /\
     (Client.opt_topgg o = None \/ Client.opt_topgg o = Some "" ->
      forall ops,
        let '(results, reqs, _) := TopGG.exec ops (Client.topgg c) in
        Forall (fun r => r = Normal (Err "Top.gg token not provided")) results /\
        reqs = [])).
Proof.
  unfold Client.new, AriwaAPI.new. split.
  - intros ->. reflexivity.
  - intros Hws. apply String.eqb_neq in Hws. rewrite Hws.
    eexists. split; [reflexivity|]. cbn [Client.core Client.wsApi Client.topgg].
    split; [reflexivity|]. split; [reflexivity|]. split; [reflexivity|].
    split.
    { destruct (Client.opt_topgg o) as [tok|]; [|reflexivity].
      destruct (String.eqb tok "") eqn:E; [reflexivity|].
      unfold TopGG.has_token. simpl. rewrite E. reflexivity. }
    split; [reflexivity|]. split; [reflexivity|]. split.
    { intros tok -> Hne. apply String.eqb_neq in Hne. rewrite Hne. reflexivity. }
    intros Hno ops.
    assert (Hst : (match Client.opt_topgg o with
                   | Some tok => if String.eqb tok "" then None
                                 else Some (tok, Client.opt_cache o)
                   | None => None
                   end) = None).
    { destruct Hno as [->| ->]; reflexivity. }
    rewrite Hst.
    pose proof (exec_no_token ops (TopGG.new None) eq_refl eq_refl) as H.
    destruct (TopGG.exec ops (TopGG.new None)) as [[results reqs] st'].
    destruct H as (-> & -> & _). split; [|reflexivity].
    apply Forall_replicate. reflexivity.
Qed.

(** X17.  When the body of the reply to [hasVoted] is the JSON value
    [null], the request is sent and [null] is cached, but reading [voted]
    off it throws: the promise of [hasVoted] rejects, and so does every
    [hasVoted] for the same bot and user before the entry expires, without a
    request. *)
Theorem hasVoted_null_payload_throws
  (st : TopGG.t) (botId userId : string) (e : env) :
  TopGG.has_token st = true -> TopGG.limited st (now e) = false ->
  live (TopGG.cache st)
       (TopGG.getCacheKey (TopGG.check_path botId) (TopGG.check_query userId)) (now e) = None ->
  Fetcher.safeFetchJSON
    (TopGG.build_url (TopGG.check_path botId) (TopGG.check_query userId)) (reply e)
    = Ok Js.VNull ->
  let '(r, st1, reqs) := TopGG.run st (TopGG.hasVoted botId userId) e in
  (exists err, r = Thrown err) /\
  length reqs = 1%nat /\
  TopGG.cache st1 !! TopGG.getCacheKey (TopGG.check_path botId) (TopGG.check_query userId) =
    Some {| data := Js.VNull; expiry := later e + TopGG.cacheTTL st |} /\
  forall e', now e' < later e + TopGG.cacheTTL st ->
    exists err, TopGG.run st1 (TopGG.hasVoted botId userId) e' = (Thrown err, st1, []).
Proof.
  intros Ht Hl Hlive Hf.
  assert (Hc : TopGG._fetchWithCache st (TopGG.check_path botId) GET Js.VUndefined
                 (TopGG.check_query userId) e =
               (Ok Js.VNull,
                TopGG.with_cache
                  (<[TopGG.getCacheKey (TopGG.check_path botId) (TopGG.check_query userId) :=
                     {| data := Js.VNull; expiry := later e + TopGG.cacheTTL st |}]>
                     (TopGG.cache st)) st,
                [TopGG.request_of st (TopGG.check_path botId) GET Js.VUndefined
                   (TopGG.check_query userId)])).
  { rewrite cached_get, Hlive. rewrite fetch_sends by assumption. rewrite Hf. reflexivity. }
  destruct (topgg_round_trip _ _ _ _ _ _ _ _ Hc) as [Hstored Hread].
  unfold TopGG.run. fold (TopGG.check_path botId). fold (TopGG.check_query userId).
  rewrite Hc. cbn [Js.nullish].
  split; [eauto|]. split; [reflexivity|]. split; [exact Hstored|].
  intros e' Hlt. rewrite (proj1 (Hread Js.VUndefined e') Hlt). cbn [Js.nullish]. eauto.
Qed.

(** * More concrete runs *)

Section MoreClientRuns.

Lemma connect_handshake_witness :
  let file := Persist.ReadText
                (Decoded (Js.VObj [("lastMessageTimestamp", Js.VNum 1700000000000)])) in
  Js.nullish Js.VUndefined = true /\
  stored (connect Js.VUndefined file idle).1.2 = Js.VNum 1700000000000 /\
  handshakes (connect Js.VUndefined file idle).2 =
    [[("Authorization", "ws-token"); ("name", "bot");
      ("lastMessageTimestamp", "1700000000000")]].
Proof.
  intros file. split; [reflexivity|].
  pose proof (connect_handshake idle Js.VUndefined file) as H.
  destruct (connect Js.VUndefined file idle) as [[r w'] log].
  destruct H as (_ & _ & _ & _ & _ & Hh & _ & Hs & _).
  cbn [fst snd]. rewrite Hh, (Hs eq_refl). split; reflexivity.
Defined.

Lemma timer_fire_reconnects_witness :
  list_find (fun p => fst p = 0%nat) (timers dropped) =
    Some (0%nat, (0%nat, ReconnectTimer (backoff (me online) 1 half))) /\
  opened (step (TimerFires 0) dropped).2 = [1%nat] /\
  ws (me (step (TimerFires 0) dropped).1.2) = Some 1%nat.
Proof.
  assert (Hf : list_find (fun p => fst p = 0%nat) (timers dropped) =
    Some (0%nat, (0%nat, ReconnectTimer (backoff (me online) 1 half)))) by reflexivity.
  split; [exact Hf|].
  pose proof (timer_fire_reconnects dropped 0 0 _ Hf) as H.
  destruct (step (TimerFires 0) dropped) as [[r w'] log].
  destruct H as (_ & Ho & _ & Hw & _). split; [exact Ho | exact Hw].
Defined.

Lemma error_only_when_malformed_witness :
  emitted (handleMessage (Malformed "Unexpected token") idle).2 =
    [EvError "Unexpected token"] /\
  saves (handleMessage (Malformed "Unexpected token") idle).2 = [].
Proof.
  destruct (error_only_when_malformed (Malformed "Unexpected token") idle
              "Unexpected token") as [_ H].
  destruct (H eq_refl) as (He & Hs & _). split; [exact He | exact Hs].
Defined.

Lemma marker_write_rule_witness :
  Js.nullish vote_frame = false /\
  Js.truthy (Js.get vote_frame "ts") = true /\
  saves (handleMessage (Decoded vote_frame) idle).2 =
    [("marker.json", Js.VObj [("lastMessageTimestamp", Js.VNum 1700000000000)])].
Proof.
  split; [reflexivity|]. split; [reflexivity|].
  pose proof (marker_write_rule idle vote_frame eq_refl) as H. cbv zeta in H.
  destruct (handleMessage (Decoded vote_frame) idle) as [[r w'] log].
  destruct H as (_ & H & _). destruct (H eq_refl) as [_ Hs]. exact Hs.
Defined.

Lemma marker_survives_restart_witness :
  Js.nullish vote_frame = false /\
  Js.truthy (Js.get vote_frame "ts") = true /\
  persist_target (me idle) = Some "marker.json" /\
  exists content,
    saves (handleMessage (Decoded vote_frame) online).2 = [("marker.json", content)] /\
    stored (connect Js.VUndefined (Persist.ReadText (Decoded content)) idle).1.2 =
      Js.VNum 1700000000000.
Proof.
  split; [reflexivity|]. split; [reflexivity|]. split; [reflexivity|].
  destruct (marker_survives_restart online idle vote_frame "marker.json" "marker.json"
              eq_refl eq_refl eq_refl eq_refl) as (content & Hs & H).
  exists content. split; [exact Hs|].
  destruct (connect Js.VUndefined (Persist.ReadText (Decoded content)) idle) as [[r w'] log].
  exact (proj1 H).
Defined.

Lemma reconnections_within_limit_witness :
  maxReconnectAttempts (me capped_online) = Finite (inject_Z (Z.of_nat 2)) /\
  (reconnectAttempts (me capped_online) <= 2)%nat /\
  forallb (fun i => negb (resets_attempts i)) flapping = true /\
  opened (run flapping capped_online).2 = [1%nat; 2%nat] /\
  (length (reconnects (run flapping capped_online).2) <= 2)%nat.
Proof.
  assert (Hm : maxReconnectAttempts (me capped_online) = Finite (inject_Z (Z.of_nat 2)))
    by reflexivity.
  assert (Ha : (reconnectAttempts (me capped_online) <= 2)%nat) by (vm_compute; lia).
  split; [exact Hm|]. split; [exact Ha|]. split; [reflexivity|]. split; [reflexivity|].
  pose proof (reconnections_within_limit 2 capped_online flapping Hm Ha eq_refl) as H.
  destruct (run flapping capped_online) as [w' log].
  destruct H as (_ & _ & H). cbn [snd]. simpl in H. exact H.
Defined.

Lemma transport_error_only_reports_witness :
  emitted (step (SocketErrors 0 "ECONNRESET") online).2 = [EvError "ECONNRESET"] /\
  reconnects (step (SocketErrors 0 "ECONNRESET") online).2 = [].
Proof.
  pose proof (transport_error_only_reports online 0 "ECONNRESET") as H.
  destruct (step (SocketErrors 0 "ECONNRESET") online) as [[r w'] log] eqn:E.
  destruct H as (_ & Hr & _). split; [|exact Hr].
  vm_compute in E. inversion E. reflexivity.
Defined.

Lemma disconnect_resolves_on_close_witness :
  ws (me online) = Some 0%nat /\
  map what (step (SocketCloses 0 1000 "Client disconnect" half)
              (disconnect online).1.2).2 =
    [Emit (EvDisconnected 1000 "Client disconnect"); Terminate 0; Resolve] /\
  ws (me (step (SocketCloses 0 1000 "Client disconnect" half)
            (disconnect online).1.2).1.2) = None.
Proof.
  split; [reflexivity|].
  pose proof (disconnect_resolves_on_close online 0
    {| readyState := OPEN;
       handshake := [("Authorization", "ws-token"); ("name", "bot")];
       listening := true; closing := [] |}
    1000 "Client disconnect" half eq_refl eq_refl eq_refl eq_refl eq_refl) as H.
  destruct (disconnect online) as [[r1 w1] log1]. destruct H as [_ H].
  cbn [fst snd].
  destruct (step (SocketCloses 0 1000 "Client disconnect" half) w1) as [[r2 w2] log2].
  destruct H as (Hl & Hw & _). split; [exact Hl | exact Hw].
Defined.

Lemma client_without_topgg_token_witness :
  opt_ws sample_options <> "" /\ opt_topgg sample_options = None /\
  exists c, Client.new sample_options = Normal c /\
    (TopGG.run (topgg c) (TopGG.getBot "1") (exchange 0 (Fetcher.number_reply 7) 5)).1.1 =
      Normal (Err "Top.gg token not provided").
Proof.
  assert (Hws : opt_ws sample_options <> "") by discriminate.
  split; [exact Hws|]. split; [reflexivity|].
  destruct (client_without_topgg_token sample_options) as [_ H].
  destruct (H Hws) as (c & Hc & _ & _ & _ & _ & _ & _ & _ & Hno).
  exists c. split; [exact Hc|].
  specialize (Hno (or_introl eq_refl)
                [TopGG.Call (TopGG.getBot "1") (exchange 0 (Fetcher.number_reply 7) 5)]).
  cbn [TopGG.exec] in Hno.
  destruct (TopGG.run (topgg c) (TopGG.getBot "1") (exchange 0 (Fetcher.number_reply 7) 5))
    as [[r st1] reqs].
  destruct Hno as [Hall _]. inversion Hall; subst. reflexivity.
Defined.

End MoreClientRuns.

Section MoreWrapperRuns.

Lemma failure_message_names_request_witness :
  Fetcher.safeFetchJSON "https://top.gg/api/bots/1" Fetcher.not_found =
    Err "Failed to fetch 'https://top.gg/api/bots/1' with code 404 Not Found: no such bot" /\
  Js.includes "https://top.gg/api/bots/1"
    "Failed to fetch 'https://top.gg/api/bots/1' with code 404 Not Found: no such bot" = true /\
  Js.includes "404"
    "Failed to fetch 'https://top.gg/api/bots/1' with code 404 Not Found: no such bot" = true.
Proof.
  assert (H : Fetcher.safeFetchJSON "https://top.gg/api/bots/1" Fetcher.not_found =
    Err "Failed to fetch 'https://top.gg/api/bots/1' with code 404 Not Found: no such bot")
    by reflexivity.
  split; [exact H|].
  destruct (failure_message_names_request _ _ _ H) as [Hu Hr].
  split; [exact Hu|]. exact (proj1 (Hr _ eq_refl eq_refl)).
Defined.

(** a body of white space beyond ASCII is blank, as [trim] has it *)
Lemma blank_bodies :
  Fetcher.is_blank Fetcher.nbsp = true /\
  Fetcher.safeFetchJSON "https://top.gg/api/bots/1" Fetcher.nbsp_reply = Ok (Js.VObj []) /\
  Fetcher.is_blank
    (String (Ascii.ascii_of_nat 226) (String (Ascii.ascii_of_nat 128)
       (String (Ascii.ascii_of_nat 168) " "))) = true /\
  Fetcher.is_blank
    (String (Ascii.ascii_of_nat 194) (String (Ascii.ascii_of_nat 161) EmptyString)) = false /\
  Fetcher.is_blank " x " = false.
Proof. repeat split; reflexivity. Qed.

Lemma path_with_429_starts_cooldown_witness :
  TopGG.has_token TopGG.sample = true /\ TopGG.limited TopGG.sample 0 = false /\
  Js.includes "429" "/bots/1429" = true /\
  TopGG.rateLimitReset
    (TopGG._fetch TopGG.sample "/bots/1429" GET Js.VUndefined None
       (exchange 0 Fetcher.not_found 5)).1.2 = Some 60005.
Proof.
  split; [reflexivity|]. split; [reflexivity|]. split; [reflexivity|].
  rewrite (path_with_429_starts_cooldown TopGG.sample "/bots/1429" GET Js.VUndefined None
             (exchange 0 Fetcher.not_found 5) _ eq_refl eq_refl eq_refl eq_refl).
  reflexivity.
Defined.

Lemma failures_are_not_cached_witness :
  (TopGG._fetchWithCache TopGG.sample "/bots/1" GET Js.VUndefined None
     (exchange 0 Fetcher.not_found 5)).1.1 =
    Err "Failed to fetch 'https://top.gg/api/bots/1' with code 404 Not Found: no such bot" /\
  TopGG.cache (TopGG._fetchWithCache TopGG.sample "/bots/1" GET Js.VUndefined None
                 (exchange 0 Fetcher.not_found 5)).1.2 = ∅.
Proof.
  assert (H : (TopGG._fetchWithCache TopGG.sample "/bots/1" GET Js.VUndefined None
     (exchange 0 Fetcher.not_found 5)).1.1 =
    Err "Failed to fetch 'https://top.gg/api/bots/1' with code 404 Not Found: no such bot")
    by reflexivity.
  split; [exact H|].
  rewrite (proj1 failures_are_not_cached _ _ _ _ _ _ H). reflexivity.
Defined.

Lemma invalidation_forces_refetch_witness :
  let st := (TopGG.exec (take 1 TopGG.hit_in_cooldown) TopGG.sample).2 in
  TopGG.has_token st = true /\ TopGG.limited st 20 = false /\
  TopGG.cache st !! "/bots/1" = Some {| data := Js.VNum 7; expiry := 1005 |} /\
  length (TopGG._fetchWithCache (TopGG.invalidateCache st "/bots/1" None) "/bots/1" GET
            Js.VUndefined None (exchange 20 (Fetcher.number_reply 8) 25)).2 = 1%nat.
Proof.
  intros st. split; [reflexivity|]. split; [reflexivity|]. split; [reflexivity|].
  destruct (proj1 invalidation_forces_refetch st "/bots/1" None Js.VUndefined
              (exchange 20 (Fetcher.number_reply 8) 25)) as (_ & _ & H).
  destruct (H eq_refl eq_refl) as [-> _]. reflexivity.
Defined.

Lemma hasVoted_answer_is_cached_witness :
  let e := exchange 0 (Fetcher.voted_reply 1) 5 in
  let st1 := (TopGG.run TopGG.sample (TopGG.hasVoted "1" "2") e).1.2 in
  (TopGG.run TopGG.sample (TopGG.hasVoted "1" "2") e).1.1 = Normal (Ok (Js.VBool true)) /\
  TopGG.run st1 (TopGG.hasVoted "1" "2") (exchange 900 Fetcher.not_found 905) =
    (Normal (Ok (Js.VBool true)), st1, []).
Proof.
  intros e st1. split; [reflexivity|].
  assert (H : TopGG.run TopGG.sample (TopGG.hasVoted "1" "2") e =
              (Normal (Ok (Js.VBool true)), st1,
               [TopGG.request_of TopGG.sample (TopGG.check_path "1") GET Js.VUndefined
                  (TopGG.check_query "2")])) by reflexivity.
  destruct (hasVoted_answer_is_cached _ _ _ _ _ _ _ H) as (payload & _ & _ & _ & Hread).
  apply Hread. reflexivity.
Defined.


Lemma hasVoted_null_payload_throws_witness :
  TopGG.has_token TopGG.sample = true /\ TopGG.limited TopGG.sample 0 = false /\
  (exists err,
     (TopGG.run TopGG.sample (TopGG.hasVoted "1" "2") (exchange 0 Fetcher.null_reply 5)).1.1 =
     Thrown err) /\
  length (TopGG.run TopGG.sample (TopGG.hasVoted "1" "2")
            (exchange 0 Fetcher.null_reply 5)).2 = 1%nat.
Proof.
  split; [reflexivity|]. split; [reflexivity|].
  pose proof (hasVoted_null_payload_throws TopGG.sample "1" "2"
                (exchange 0 Fetcher.null_reply 5) eq_refl eq_refl eq_refl eq_refl) as H.
  destruct (TopGG.run TopGG.sample (TopGG.hasVoted "1" "2")
              (exchange 0 Fetcher.null_reply 5)) as [[r st1] reqs].
  destruct H as (He & Hl & _). split; [exact He | exact Hl].
Defined.

End MoreWrapperRuns.
